(** * Voice-based to-do application: the client script, embedded in Rocq

    The development follows [static/script.js] (the client that the page
    loads) and, where the two differ, the earlier copy of the client that
    announces itself as [script3.js].

    - Module [Js]: the string primitives of the host language that the
      script relies on ([toLowerCase], [trim], [startsWith], [includes]
      and the three regular expressions of the command parser), over
      strings of code units below 256.
    - The browser ([Browser]): recognition session objects, the speech
      synthesis queue, pending timers and pending HTTP requests.
    - The script's variables ([Vars]) and the part of the page it writes
      to ([Dom]).
    - Every function of the script as a computation in the monad [Js]
      (state, an effect log, and exceptions that keep the state reached).
    - The event loop [handle]: one browser event, one handler run to
      completion.

    Console logging is not modelled. *)

From Stdlib Require Import Ascii String DecimalString DecimalNat.
From stdpp Require Import base tactics option list strings.

Set Default Proof Using "Type".

(** ** Host-language strings *)

Module Js.

(** WhiteSpace and LineTerminator code units below 256 (what [\s] and
    [trim] remove): TAB, LF, VT, FF, CR, SP and NBSP. *)
Definition is_space (c : ascii) : bool :=
  let n := nat_of_ascii c in
  ((9 <=? n) && (n <=? 13)) || (n =? 32) || (n =? 160).

(** The code units that [.] refuses: LF and CR. *)
Definition is_line_terminator (c : ascii) : bool :=
  let n := nat_of_ascii c in (n =? 10) || (n =? 13).

(** [toLowerCase] on one code unit: A-Z, and the Latin-1 capitals
    U+00C0..U+00DE except the multiplication sign U+00D7. *)
Definition lower_char (c : ascii) : ascii :=
  let n := nat_of_ascii c in
  if ((65 <=? n) && (n <=? 90)) ||
     ((192 <=? n) && (n <=? 222) && negb (n =? 215))
  then ascii_of_nat (n + 32) else c.

Fixpoint map (f : ascii → ascii) (s : string) : string :=
  match s with
  | EmptyString => EmptyString
  | String c r => String (f c) (map f r)
  end.

Definition toLowerCase (s : string) : string := map lower_char s.

Fixpoint trimStart (s : string) : string :=
  match s with
  | EmptyString => EmptyString
  | String c r => if is_space c then trimStart r else s
  end.

Fixpoint trimEnd (s : string) : string :=
  match s with
  | EmptyString => EmptyString
  | String c r =>
      match trimEnd r with
      | EmptyString => if is_space c then EmptyString else String c EmptyString
      | r' => String c r'
      end
  end.

Definition trim (s : string) : string := trimEnd (trimStart s).

Fixpoint startsWith (p s : string) : bool :=
  match p, s with
  | EmptyString, _ => true
  | String a p', String b s' => Ascii.eqb a b && startsWith p' s'
  | String _ _, EmptyString => false
  end.

Fixpoint includes (p s : string) : bool :=
  startsWith p s ||
  match s with
  | EmptyString => false
  | String _ r => includes p r
  end.

Fixpoint drop (n : nat) (s : string) : string :=
  match n, s with
  | O, _ => s
  | S n', String _ r => drop n' r
  | S _, EmptyString => EmptyString
  end.

Fixpoint all (f : ascii → bool) (s : string) : bool :=
  match s with
  | EmptyString => true
  | String c r => f c && all f r
  end.

(** Truthiness of a string value: only the empty string is falsy. *)
Definition truthy (s : string) : bool :=
  match s with EmptyString => false | _ => true end.

(** [s.replace(/[.,!?]/g, " ")] *)
Definition is_punct (c : ascii) : bool :=
  let n := nat_of_ascii c in
  (n =? 46) || (n =? 44) || (n =? 33) || (n =? 63).

Definition replace_punct (s : string) : string :=
  map (λ c, if is_punct c then " "%char else c) s.

(** [s.replace(/\s+/g, " ")]: [in_run] tells that the previous code
    unit was white space, whose run has already produced its blank. *)
Fixpoint collapse_from (in_run : bool) (s : string) : string :=
  match s with
  | EmptyString => EmptyString
  | String c r =>
      if is_space c
      then (if in_run then collapse_from true r
            else String " "%char (collapse_from true r))
      else String c (collapse_from false r)
  end.

Definition collapse_spaces (s : string) : string := collapse_from false s.

(** [s.replace(/^\s*kw\s*/i, "")] for a lower-case ASCII keyword [kw]:
    the match is anchored at the start, so either the keyword is there
    after the leading white space and is removed with the white space
    around it, or nothing is replaced. *)
Definition strip_keyword (kw s : string) : string :=
  let s1 := trimStart s in
  if startsWith kw (toLowerCase s1)
  then trimStart (drop (String.length kw) s1)
  else s.

(** Number of leading white-space code units. *)
Fixpoint leading_spaces (s : string) : nat :=
  match s with
  | String c r => if is_space c then S (leading_spaces r) else O
  | EmptyString => O
  end.

(** [\s+(?:as\s+)?done$] against the whole of [s].  The word after the
    white space starts with a letter, so how many white-space code units
    [\s+] takes is forced. *)
Definition done_tail (s : string) : bool :=
  match leading_spaces s with
  | O => false
  | k =>
      let r := drop k s in
      String.eqb r "done" ||
      (startsWith "as" r &&
       match leading_spaces (drop 2 r) with
       | O => false
       | k' => String.eqb (drop (k' + 2) r) "done"
       end)
  end.

(** [(.+?)] followed by [done_tail]: the lazy group tries the shortest
    name first; [acc] holds the code units already taken, reversed. *)
Fixpoint lazy_name (acc : list ascii) (s : string) : option string :=
  match s with
  | EmptyString => None
  | String c r =>
      if is_line_terminator c then None
      else if done_tail r
           then Some (string_of_list_ascii (rev (c :: acc)))
           else lazy_name (c :: acc) r
  end.

(** A greedy [\s+] followed by [rest]: try the longest run first and
    give code units back one at a time, down to one. *)
Fixpoint greedy_spaces {A} (rest : string → option A) (k : nat) (s : string)
  : option A :=
  match k with
  | O => None
  | S k' =>
      match rest (drop k s) with
      | Some a => Some a
      | None => greedy_spaces rest k' s
      end
  end.

(** [s.match(/^mark\s+(.+?)\s+(?:as\s+)?done$/i)], group 1.  The script
    applies it to the lower-cased command, on which the [i] flag is
    inert, so the literals are compared as they are. *)
Definition match_mark (s : string) : option string :=
  if startsWith "mark" s
  then let r := drop 4 s in
       greedy_spaces (lazy_name []) (leading_spaces r) r
  else None.

(** [(.+)$]: everything that is left, which must be non-empty and free
    of line terminators. *)
Definition rest_of_line (s : string) : option string :=
  if truthy s && all (λ c, negb (is_line_terminator c)) s
  then Some s else None.

(** [s.match(/^(?:delete|remove)\s+(.+)$/i)], group 1, again on the
    lower-cased command. *)
Definition match_delete (s : string) : option string :=
  if startsWith "delete" s || startsWith "remove" s
  then let r := drop 6 s in
       greedy_spaces rest_of_line (leading_spaces r) r
  else None.

(** [String(n)] for a non-negative integer. *)
Definition of_nat (n : nat) : string :=
  NilEmpty.string_of_uint (Nat.to_uint n).

(** [names.join(sep)] *)
Fixpoint join (sep : string) (l : list string) : string :=
  match l with
  | [] => ""
  | [x] => x
  | x :: r => x +:+ sep +:+ join sep r
  end.

End Js.

(** ** The browser, the page and the script's variables *)

(** The three recognition sessions.  The wake and command recognizers are
    created by [initRecognizers]; a confirmation recognizer is created by
    [startConfirmRecognition] each time it runs. *)
Inductive kind := Wake | Command | Confirm.

(** A [SpeechRecognition] object is [Capturing] from a successful
    [start()] until [stop()] is called on it, then [Stopping] until the
    browser delivers its [end] event. *)
Inductive status := Inactive | Capturing | Stopping.

(** The functions that the script installs as [onend] of an utterance:
    the closure of the wake flow that starts the command recognizer, and
    [startConfirmRecognition]. *)
Inductive callback := CbStartCommand | CbStartConfirm.

Record utterance := Utterance { u_text : string; u_onend : option callback }.

(** The closures handed to [openConfirmDialog]:
    [() => { sendCommandJson(path); }] and [() => {}]. *)
Inductive action := ActSend (path : string) | ActNothing.

Record task := Task {
  t_id : nat; t_name : string; t_done : bool;
  t_priority : nat; t_category : string; t_due_date : option string }.

Inductive method := GET | POST.

(** A request body: the fields of the object given to [JSON.stringify]. *)
Definition payload := list (string * string).

(** What [res.json()] can resolve to: an object that may carry [message]
    and [error], or an array of tasks. *)
Inductive json :=
| JObject (message error : option string)
| JTasks (tasks : list task).

(** The outcome of a [fetch]: the promise rejects, or a response arrives
    with its [ok] flag and a body that parses ([Some]) or not ([None]). *)
Inductive outcome :=
| NetworkFailure
| Response (ok : bool) (parsed : option json).

(** What the caller of [refreshTasks] does once it is over. *)
Inductive resumption := ThenNothing | ThenReturn (data : json).

(** The [await] at which a pending request will resume. *)
Inductive kont :=
| KSendCommandJson
| KRefreshTasks (r : resumption)
| KListAll
| KListPending
| KListCompleted.

Record Vars := MkVars {
  listening : bool;
  wakeRecognition : option nat;
  commandRecognition : option nat;
  wakeRunning : bool;
  inCommandMode : bool;
  sortMode : string;
  inConfirmDialog : bool;
  confirmRecognition : option nat;
  confirmOnConfirm : option action;
  confirmOnCancel : option action }.

(** [confirmOverlay] is [None] until [initConfirmDialog] has built the
    modal, then [Some shown]. *)
Record Dom := MkDom {
  confirmOverlay : option bool;
  confirmMessage : string;
  statusText : string * string;
  muteLabel : string;
  taskList : list task }.

(** [requests !! i] is [Some (Some k)] while request [i] is in flight. *)
Record Browser := MkBrowser {
  has_recognition : bool;
  has_synth : bool;
  wake_sessions : list status;
  command_sessions : list status;
  confirm_sessions : list status;
  utterances : list utterance;
  timers : nat;
  requests : list (option kont) }.

Record World := MkWorld { vars : Vars; dom : Dom; browser : Browser }.

Definition on_vars (f : Vars → Vars) (w : World) : World :=
  MkWorld (f (vars w)) (dom w) (browser w).
Definition on_dom (f : Dom → Dom) (w : World) : World :=
  MkWorld (vars w) (f (dom w)) (browser w).
Definition on_browser (f : Browser → Browser) (w : World) : World :=
  MkWorld (vars w) (dom w) (f (browser w)).

Definition set_listening x v :=
  MkVars x (wakeRecognition v) (commandRecognition v) (wakeRunning v)
    (inCommandMode v) (sortMode v) (inConfirmDialog v) (confirmRecognition v)
    (confirmOnConfirm v) (confirmOnCancel v).
Definition set_wakeRecognition x v :=
  MkVars (listening v) x (commandRecognition v) (wakeRunning v)
    (inCommandMode v) (sortMode v) (inConfirmDialog v) (confirmRecognition v)
    (confirmOnConfirm v) (confirmOnCancel v).
Definition set_commandRecognition x v :=
  MkVars (listening v) (wakeRecognition v) x (wakeRunning v)
    (inCommandMode v) (sortMode v) (inConfirmDialog v) (confirmRecognition v)
    (confirmOnConfirm v) (confirmOnCancel v).
Definition set_wakeRunning x v :=
  MkVars (listening v) (wakeRecognition v) (commandRecognition v) x
    (inCommandMode v) (sortMode v) (inConfirmDialog v) (confirmRecognition v)
    (confirmOnConfirm v) (confirmOnCancel v).
Definition set_inCommandMode x v :=
  MkVars (listening v) (wakeRecognition v) (commandRecognition v) (wakeRunning v)
    x (sortMode v) (inConfirmDialog v) (confirmRecognition v)
    (confirmOnConfirm v) (confirmOnCancel v).
Definition set_sortMode x v :=
  MkVars (listening v) (wakeRecognition v) (commandRecognition v) (wakeRunning v)
    (inCommandMode v) x (inConfirmDialog v) (confirmRecognition v)
    (confirmOnConfirm v) (confirmOnCancel v).
Definition set_inConfirmDialog x v :=
  MkVars (listening v) (wakeRecognition v) (commandRecognition v) (wakeRunning v)
    (inCommandMode v) (sortMode v) x (confirmRecognition v)
    (confirmOnConfirm v) (confirmOnCancel v).
Definition set_confirmRecognition x v :=
  MkVars (listening v) (wakeRecognition v) (commandRecognition v) (wakeRunning v)
    (inCommandMode v) (sortMode v) (inConfirmDialog v) x
    (confirmOnConfirm v) (confirmOnCancel v).
Definition set_confirmOnConfirm x v :=
  MkVars (listening v) (wakeRecognition v) (commandRecognition v) (wakeRunning v)
    (inCommandMode v) (sortMode v) (inConfirmDialog v) (confirmRecognition v)
    x (confirmOnCancel v).
Definition set_confirmOnCancel x v :=
  MkVars (listening v) (wakeRecognition v) (commandRecognition v) (wakeRunning v)
    (inCommandMode v) (sortMode v) (inConfirmDialog v) (confirmRecognition v)
    (confirmOnConfirm v) x.

Definition set_confirmOverlay x d :=
  MkDom x (confirmMessage d) (statusText d) (muteLabel d) (taskList d).
Definition set_confirmMessage x d :=
  MkDom (confirmOverlay d) x (statusText d) (muteLabel d) (taskList d).
Definition set_statusText x d :=
  MkDom (confirmOverlay d) (confirmMessage d) x (muteLabel d) (taskList d).
Definition set_muteLabel x d :=
  MkDom (confirmOverlay d) (confirmMessage d) (statusText d) x (taskList d).
Definition set_taskList x d :=
  MkDom (confirmOverlay d) (confirmMessage d) (statusText d) (muteLabel d) x.

Definition sessions (k : kind) (b : Browser) : list status :=
  match k with
  | Wake => wake_sessions b
  | Command => command_sessions b
  | Confirm => confirm_sessions b
  end.

Definition set_sessions (k : kind) (l : list status) (b : Browser) : Browser :=
  match k with
  | Wake =>
      MkBrowser (has_recognition b) (has_synth b) l (command_sessions b)
        (confirm_sessions b) (utterances b) (timers b) (requests b)
  | Command =>
      MkBrowser (has_recognition b) (has_synth b) (wake_sessions b) l
        (confirm_sessions b) (utterances b) (timers b) (requests b)
  | Confirm =>
      MkBrowser (has_recognition b) (has_synth b) (wake_sessions b)
        (command_sessions b) l (utterances b) (timers b) (requests b)
  end.
Definition set_utterances x b :=
  MkBrowser (has_recognition b) (has_synth b) (wake_sessions b)
    (command_sessions b) (confirm_sessions b) x (timers b) (requests b).
Definition set_timers x b :=
  MkBrowser (has_recognition b) (has_synth b) (wake_sessions b)
    (command_sessions b) (confirm_sessions b) (utterances b) x (requests b).
Definition set_requests x b :=
  MkBrowser (has_recognition b) (has_synth b) (wake_sessions b)
    (command_sessions b) (confirm_sessions b) (utterances b) (timers b) x.

(** What a handler does to the outside, in the order it does it. *)
Inductive Effect :=
| ECancel                                  (* synth.cancel() *)
| ESpeak (text : string)                   (* synth.speak(utter) *)
| EStatus (msg color : string)             (* showStatus *)
| EDing                                    (* playDing *)
| EStart (k : kind) (i : nat)              (* a start() that succeeded *)
| EStop (k : kind) (i : nat)               (* a stop() on a capturing session *)
| EFetch (m : method) (path : string) (body : payload)
| ETimeout (ms : nat).                     (* setTimeout(startWakeRecognition, ms) *)

(** ** The monad of handlers *)

Inductive exn := TypeError | InvalidStateError | FetchRejected | SyntaxError.

Inductive completion (A : Type) :=
| Normal (a : A)
| Throw (e : exn).
Arguments Normal {A} a.
Arguments Throw {A} e.

Definition Js (A : Type) : Type := World → World * list Effect * completion A.

Definition ret {A} (a : A) : Js A := λ w, (w, [], Normal a).

Definition bind {A B} (m : Js A) (k : A → Js B) : Js B := λ w,
  match m w with
  | (w1, e1, Normal a) => let '(w2, e2, r) := k a w1 in (w2, e1 ++ e2, r)
  | (w1, e1, Throw x) => (w1, e1, Throw x)
  end.

Definition throw {A} (x : exn) : Js A := λ w, (w, [], Throw x).

(** [try { m } catch { h }]: the state reached and the effects done
    before the exception stay. *)
Definition try_catch {A} (m : Js A) (h : Js A) : Js A := λ w,
  match m w with
  | (w1, e1, Throw _) => let '(w2, e2, r) := h w1 in (w2, e1 ++ e2, r)
  | r => r
  end.

Definition read {A} (f : World → A) : Js A := λ w, (w, [], Normal (f w)).
Definition write (f : World → World) : Js unit := λ w, (f w, [], Normal tt).
Definition emit (e : Effect) : Js unit := λ w, (w, [e], Normal tt).

Declare Scope js_scope.
Delimit Scope js_scope with js.
Bind Scope js_scope with Js.
Notation "x <- m ;; k" := (bind m (λ x, k))
  (at level 100, m at next level, right associativity) : js_scope.
Notation "m ;; k" := (bind m (λ _, k))
  (at level 100, right associativity) : js_scope.
Local Open Scope js_scope.

Definition var {A} (f : Vars → A) : Js A := read (λ w, f (vars w)).
Definition assign (f : Vars → Vars) : Js unit := write (on_vars f).

(** ** The Web Speech and timer primitives *)

(** [new SpeechRecognition()] *)
Definition rec_new (k : kind) : Js nat :=
  l <- read (λ w, sessions k (browser w)) ;;
  write (on_browser (set_sessions k (l ++ [Inactive]))) ;;
  ret (length l).

(** [r.start()]: throws [InvalidStateError] unless the object is idle. *)
Definition rec_start (k : kind) (i : nat) : Js unit :=
  l <- read (λ w, sessions k (browser w)) ;;
  match l !! i with
  | Some Inactive =>
      write (on_browser (set_sessions k (<[i:=Capturing]> l))) ;;
      emit (EStart k i)
  | _ => throw InvalidStateError
  end.

(** [r.stop()]: a request; the session ends with its [end] event. *)
Definition rec_stop (k : kind) (i : nat) : Js unit :=
  l <- read (λ w, sessions k (browser w)) ;;
  match l !! i with
  | Some Capturing =>
      write (on_browser (set_sessions k (<[i:=Stopping]> l))) ;;
      emit (EStop k i)
  | _ => ret tt
  end.

(** [synth.cancel()]: the queue is emptied; the utterances removed get an
    [error] event, not [end], so their [onend] never runs. *)
Definition synth_cancel : Js unit :=
  write (on_browser (set_utterances [])) ;; emit ECancel.

(** [synth.speak(utter)]: the utterance joins the queue, whose head is
    the one being spoken.  [synth] is [window.speechSynthesis]; where the
    browser has none the call is a [TypeError]. *)
Definition synth_speak (u : utterance) : Js unit :=
  s <- read (λ w, has_synth (browser w)) ;;
  if s : bool then
    q <- read (λ w, utterances (browser w)) ;;
    write (on_browser (set_utterances (q ++ [u]))) ;;
    emit (ESpeak (u_text u))
  else throw TypeError.

(** [setTimeout(startWakeRecognition, ms)], the only timer the script
    arms outside of the page decoration. *)
Definition setTimeout_startWake (ms : nat) : Js unit :=
  n <- read (λ w, timers (browser w)) ;;
  write (on_browser (set_timers (S n))) ;;
  emit (ETimeout ms).

(** [fetch(path, ...)] followed by an [await]: the request is in flight
    and [k] says where the function resumes. *)
Definition fetch (m : method) (path : string) (body : payload) (k : kont)
  : Js unit :=
  q <- read (λ w, requests (browser w)) ;;
  write (on_browser (set_requests (q ++ [Some k]))) ;;
  emit (EFetch m path body).

(** ** The script *)

(** *** Wake word *)

Definition wakeVariants : list string :=
  [ "hey to do"; "hey todo"; "hey to-do";
    "hey todu"; "hey tudu"; "hey tutu"; "hey tado"; "hey two do"; "hey 2 do";
    "hello to do"; "hello todo"; "hello to-do";
    "hate to do"; "hate todo"; "hate to-do"; "hate odo"; "hate odoo";
    "hate todu"; "hate tudu";
    "hey do"; "hey to"; "hey odo" ].

(** The transcript as [wakeWordHeard] compares it. *)
Definition normalize (rawTranscript : string) : string :=
  Js.trim (Js.collapse_spaces (Js.replace_punct (Js.toLowerCase rawTranscript))).

Definition wakeWordHeard (rawTranscript : string) : bool :=
  if negb (Js.truthy rawTranscript) then false
  else existsb (λ v, Js.includes v (normalize rawTranscript)) wakeVariants.

(** *** Audio and speech *)

Definition playDing : Js unit := emit EDing.

Definition showStatus (msg color : string) : Js unit :=
  write (on_dom (set_statusText (msg, color))) ;;
  emit (EStatus msg color).

Definition startWakeRecognition : Js unit :=
  running <- var wakeRunning ;;
  on <- var listening ;;
  r <- var wakeRecognition ;;
  match r with
  | Some i =>
      if negb running && on
      then try_catch
             (rec_start Wake i ;; assign (set_wakeRunning true))
             (ret tt)
      else ret tt
  | None => ret tt
  end.

Definition stopWakeRecognition : Js unit :=
  running <- var wakeRunning ;;
  r <- var wakeRecognition ;;
  match r with
  | Some i =>
      if running : bool
      then try_catch (rec_stop Wake i) (ret tt) ;;
           assign (set_wakeRunning false)
      else ret tt
  | None => ret tt
  end.

(** [commandRecognition && commandRecognition.stop()] inside its
    [try]/[catch]. *)
Definition stopCommandRecognition : Js unit :=
  r <- var commandRecognition ;;
  match r with
  | Some i => try_catch (rec_stop Command i) (ret tt)
  | None => ret tt
  end.

(** [confirmRecognition.start()] on the variable as it is now; on [null]
    the call is a [TypeError]. *)
Definition confirmRecognition_start : Js unit :=
  r <- var confirmRecognition ;;
  match r with
  | Some i => rec_start Confirm i
  | None => throw TypeError
  end.

(** The function nested in [openConfirmDialog].  It reads nothing of the
    dialog it was created for, so every dialog installs the same one. *)
Definition startConfirmRecognition : Js unit :=
  sr <- read (λ w, has_recognition (browser w)) ;;
  if sr : bool then
    i <- rec_new Confirm ;;
    assign (set_confirmRecognition (Some i)) ;;
    try_catch confirmRecognition_start (ret tt)
  else ret tt.

(** [utter.onend] of the wake flow.  [commandRecognition.start()] is not
    guarded there. *)
Definition wakePrompt_onend : Js unit :=
  playDing ;;
  showStatus "Speak now!" "green" ;;
  r <- var commandRecognition ;;
  match r with
  | Some i => rec_start Command i
  | None => throw TypeError
  end.

Definition call (cb : callback) : Js unit :=
  match cb with
  | CbStartCommand => wakePrompt_onend
  | CbStartConfirm => startConfirmRecognition
  end.

Definition speak (text : string) (onEnd : option callback) : Js unit :=
  s <- read (λ w, has_synth (browser w)) ;;
  if negb s then
    match onEnd with
    | Some cb => call cb
    | None => ret tt
    end
  else
    synth_cancel ;;
    synth_speak (Utterance text onEnd).

(** *** HTTP helpers *)

Definition refreshTasks (r : resumption) : Js unit :=
  mode <- var sortMode ;;
  fetch GET ("/tasks?sort=" +:+ mode) [] (KRefreshTasks r).

(** What an [async] function has done when a handler is over: it has
    returned, or it waits at an [await]. *)
Inductive async (A : Type) := Returned (a : A) | Suspended.
Arguments Returned {A} a.
Arguments Suspended {A}.

(** [await fetch(...)] then [await res.json()], as seen from inside the
    [try]. *)
Definition await_json (o : outcome) : Js (bool * json) :=
  match o with
  | NetworkFailure => throw FetchRejected
  | Response _ None => throw SyntaxError
  | Response ok (Some j) => ret (ok, j)
  end.

(** [refreshTasks] from its [await] on.  An object in place of the array
    empties the list and then fails at [forEach]. *)
Definition refreshTasks_reply (o : outcome) : Js unit :=
  try_catch
    (res <- await_json o ;;
     match res.2 with
     | JTasks ts => write (on_dom (set_taskList ts))
     | JObject _ _ => write (on_dom (set_taskList [])) ;; throw TypeError
     end)
    (showStatus "Failed to load tasks." "red").

Definition json_message (j : json) : option string :=
  match j with JObject m _ => m | JTasks _ => None end.
Definition json_error (j : json) : option string :=
  match j with JObject _ e => e | JTasks _ => None end.

(** A field that is there and truthy. *)
Definition truthy_field (f : option string) : option string :=
  match f with
  | Some s => if Js.truthy s then Some s else None
  | None => None
  end.

Definition sendCommandJson (path : string) (body : payload) : Js unit :=
  fetch POST path body KSendCommandJson.

(** [sendCommandJson] from its first [await] on.  On the success path it
    stops again at [await refreshTasks()] and returns [data] after it. *)
Definition sendCommandJson_reply (o : outcome) : Js (async (option json)) :=
  try_catch
    (res <- await_json o ;;
     let '(ok, data) := res in
     if negb ok then
       let err := default "Unknown error" (truthy_field (json_error data)) in
       speak err None ;;
       showStatus err "red" ;;
       ret (Returned None)
     else
       match truthy_field (json_message data) with
       | Some m => speak m None
       | None => ret tt
       end ;;
       refreshTasks (ThenReturn data) ;;
       ret Suspended)
    (showStatus "Network error." "red" ;;
     speak "Network error." None ;;
     ret (Returned None)).


(** *** Confirmation dialog *)

Definition initConfirmDialog : Js unit :=
  o <- read (λ w, confirmOverlay (dom w)) ;;
  match o with
  | Some _ => ret tt
  | None => write (on_dom (set_confirmOverlay (Some false)))
  end.

Definition openConfirmDialog (message : string) (onConfirm : action)
    (onCancel : option action) (voicePrompt : option string) : Js unit :=
  initConfirmDialog ;;
  assign (set_inConfirmDialog true) ;;
  assign (set_confirmOnConfirm (Some onConfirm)) ;;
  assign (set_confirmOnCancel onCancel) ;;
  write (on_dom (set_confirmMessage message)) ;;
  write (on_dom (set_confirmOverlay (Some true))) ;;
  stopWakeRecognition ;;
  stopCommandRecognition ;;
  match truthy_field voicePrompt with
  | Some p => speak p (Some CbStartConfirm)
  | None => speak message (Some CbStartConfirm)
  end.

Definition closeConfirmDialog : Js unit :=
  o <- read (λ w, confirmOverlay (dom w)) ;;
  match o with
  | Some _ => write (on_dom (set_confirmOverlay (Some false)))
  | None => ret tt
  end ;;
  r <- var confirmRecognition ;;
  match r with
  | Some i =>
      try_catch (rec_stop Confirm i) (ret tt) ;;
      assign (set_confirmRecognition None)
  | None => ret tt
  end ;;
  assign (set_inConfirmDialog false) ;;
  on <- var listening ;;
  if on : bool then setTimeout_startWake 300 else ret tt.

Definition run_action (a : action) : Js unit :=
  match a with
  | ActSend path => sendCommandJson path []
  | ActNothing => ret tt
  end.

Definition handleConfirmYes : Js unit :=
  closeConfirmDialog ;;
  a <- var confirmOnConfirm ;;
  match a with
  | Some f => run_action f
  | None => ret tt
  end.

Definition handleConfirmCancel : Js unit :=
  closeConfirmDialog ;;
  speak "Okay, I cancelled that action." None ;;
  a <- var confirmOnCancel ;;
  match a with
  | Some f => run_action f
  | None => ret tt
  end.

Definition askForClearAllConfirmation : Js unit :=
  openConfirmDialog
    "This will delete ALL tasks and cannot be undone. Are you sure?"
    (ActSend "/clear")
    (Some ActNothing)
    (Some "Warning. This will delete all of your tasks. Are you sure?").

Definition askForClearCompletedConfirmation : Js unit :=
  openConfirmDialog
    "This will delete all completed tasks and cannot be undone. Are you sure?"
    (ActSend "/clear-completed")
    (Some ActNothing)
    (Some "You asked to clear all completed tasks. Are you sure?").

(** The three handlers that [startConfirmRecognition] installs. *)
Definition confirmRecognition_onresult (heard : string) : Js unit :=
  let transcript := Js.trim (Js.toLowerCase heard) in
  if Js.includes "confirm" transcript
     || String.eqb transcript "yes"
     || Js.includes "yeah" transcript
     || Js.includes "sure" transcript
  then handleConfirmYes
  else if Js.includes "cancel" transcript
          || Js.includes "no" transcript
          || Js.includes "nope" transcript
  then handleConfirmCancel
  else speak "I did not catch that. Can you repeat?" (Some CbStartConfirm).

Definition confirmRecognition_onerror : Js unit := ret tt.

Definition confirmRecognition_onend : Js unit :=
  open <- var inConfirmDialog ;;
  if open : bool then try_catch confirmRecognition_start (ret tt) else ret tt.

(** *** Listing helpers *)

Definition listAllTasks : Js unit := fetch GET "/tasks" [] KListAll.
Definition listPendingTasks : Js unit := fetch GET "/tasks" [] KListPending.
Definition listCompletedTasks : Js unit := fetch GET "/tasks" [] KListCompleted.

Definition names (ts : list task) : string := Js.join ", " (t_name <$> ts).

(** On an object in place of the array, [tasks.length] is [undefined],
    which reads as "no tasks"; [tasks.filter] is a [TypeError]. *)
Definition listAllTasks_reply (o : outcome) : Js unit :=
  try_catch
    (res <- await_json o ;;
     match res.2 with
     | JTasks (_ :: _ as ts) =>
         speak ("You have " +:+ Js.of_nat (length ts) +:+ " tasks: " +:+ names ts)
           None
     | _ =>
         speak "You have no tasks." None ;;
         showStatus "No tasks found." "orange"
     end)
    (speak "Failed to fetch tasks." None).

Definition listPendingTasks_reply (o : outcome) : Js unit :=
  try_catch
    (res <- await_json o ;;
     match res.2 with
     | JTasks ts =>
         match filter (λ t, t_done t = false) ts with
         | [] =>
             speak "You have no pending tasks." None ;;
             showStatus "No pending tasks." "green"
         | pending =>
             speak ("You have " +:+ Js.of_nat (length pending)
                    +:+ " pending tasks: " +:+ names pending) None
         end
     | JObject _ _ => throw TypeError
     end)
    (speak "Failed to fetch tasks." None).

Definition listCompletedTasks_reply (o : outcome) : Js unit :=
  try_catch
    (res <- await_json o ;;
     match res.2 with
     | JTasks ts =>
         match filter (λ t, t_done t = true) ts with
         | [] =>
             speak "You have no completed tasks." None ;;
             showStatus "No completed tasks." "gray"
         | completed =>
             speak ("You have " +:+ Js.of_nat (length completed)
                    +:+ " completed tasks: " +:+ names completed) None
         end
     | JObject _ _ => throw TypeError
     end)
    (speak "Failed to fetch tasks." None).

(** *** Voice commands *)

Definition any_of (phrases : list string) (s : string) : bool :=
  existsb (λ p, Js.includes p s) phrases.

Definition sort_by (mode announce : string) : Js unit :=
  assign (set_sortMode mode) ;;
  speak announce None ;;
  refreshTasks ThenNothing.

(** [cmd] is [None] for [undefined]. *)
Definition processCommand (cmd : option string) : Js unit :=
  match cmd with
  | None => ret tt
  | Some cmd =>
  if negb (Js.truthy cmd) then ret tt else
  let cmd := Js.trim cmd in
  if negb (Js.truthy cmd) then ret tt else
  let lower := Js.toLowerCase cmd in
  if Js.startsWith "add " lower then
    let name := Js.trim (Js.strip_keyword "add" cmd) in
    if negb (Js.truthy name) then speak "What should I add?" None
    else sendCommandJson "/add" [("task", name)]
  else if Js.startsWith "remind me to " lower then
    let name := Js.trim (Js.strip_keyword "remind me to" cmd) in
    if negb (Js.truthy name) then speak "What should I remind you to do?" None
    else sendCommandJson "/add" [("task", name)]
  else
  match Js.match_mark lower with
  | Some name => sendCommandJson "/mark-by-name" [("name", Js.trim name)]
  | None =>
  match Js.match_delete lower with
  | Some name => sendCommandJson "/delete-by-name" [("name", Js.trim name)]
  | None =>
  if any_of ["clear completed"; "remove completed"] lower
  then askForClearCompletedConfirmation
  else if any_of ["clear all"; "remove all"] lower
  then askForClearAllConfirmation
  else if any_of ["list all tasks"; "what are my tasks"] lower
  then listAllTasks
  else if any_of ["list pending"; "pending tasks"] lower
  then listPendingTasks
  else if any_of ["list completed"; "completed tasks"] lower
  then listCompletedTasks
  else if any_of ["sort by priority"; "order by priority"] lower
  then sort_by "priority" "Sorting by priority."
  else if any_of ["sort by category"; "order by category"] lower
  then sort_by "category" "Sorting by category."
  else if any_of ["sort by due"; "sort by date"; "sort by deadline";
                  "order by due"; "order by date"; "order by deadline"] lower
  then sort_by "due" "Sorting by due date."
  else if any_of ["sort by created"; "sort by added";
                  "order by created"; "order by added"] lower
  then sort_by "created" "Sorting by created time."
  else speak "Sorry, I did not understand that." None
  end end end.

(** *** Recognizers *)

Definition initRecognizers : Js unit :=
  sr <- read (λ w, has_recognition (browser w)) ;;
  if negb sr then showStatus "Web Speech API not supported." "red"
  else
    i <- rec_new Wake ;;
    assign (set_wakeRecognition (Some i)) ;;
    j <- rec_new Command ;;
    assign (set_commandRecognition (Some j)).

Definition wakeRecognition_onresult (heard : string) : Js unit :=
  let transcript := Js.trim heard in
  busy <- var inCommandMode ;;
  dialog <- var inConfirmDialog ;;
  if wakeWordHeard transcript && negb busy && negb dialog then
    assign (set_inCommandMode true) ;;
    stopWakeRecognition ;;
    showStatus "Listening for command..." "blue" ;;
    synth_speak (Utterance "Yes?" (Some CbStartCommand))
  else ret tt.

Definition wakeRecognition_onend : Js unit :=
  assign (set_wakeRunning false) ;;
  busy <- var inCommandMode ;;
  on <- var listening ;;
  dialog <- var inConfirmDialog ;;
  if negb busy && on && negb dialog then setTimeout_startWake 500 else ret tt.

Definition wakeRecognition_onerror : Js unit := ret tt.

Definition dquote : string := String (ascii_of_nat 34) EmptyString.

Definition commandRecognition_onresult (transcript : string) : Js unit :=
  showStatus ("You said: " +:+ dquote +:+ transcript +:+ dquote) "purple" ;;
  processCommand (Some transcript).

Definition commandRecognition_onend : Js unit :=
  assign (set_inCommandMode false) ;;
  showStatus "Say 'Hey To Do' to start again." "green" ;;
  on <- var listening ;;
  dialog <- var inConfirmDialog ;;
  if on && negb dialog then setTimeout_startWake 500 else ret tt.

Definition commandRecognition_onerror : Js unit :=
  assign (set_inCommandMode false) ;;
  dialog <- var inConfirmDialog ;;
  if negb dialog then startWakeRecognition else ret tt.

(** *** Page controls *)

Definition manualForm_submit (value : string) : Js unit :=
  let v := Js.trim value in
  if negb (Js.truthy v) then ret tt
  else sendCommandJson "/add" [("task", v)].

Definition muteBtn_click : Js unit :=
  on <- var listening ;;
  assign (set_listening (negb on)) ;;
  write (on_dom (set_muteLabel
    (if negb on then "Stop Listening" else "Start Listening"))) ;;
  if negb on then
    initRecognizers ;;
    startWakeRecognition ;;
    showStatus "Say 'Hey To Do' to start." "green"
  else
    stopWakeRecognition ;;
    stopCommandRecognition ;;
    showStatus "Voice paused. Use manual input." "gray".

Definition clearBtn_click : Js unit := askForClearAllConfirmation.

(** The choice of an entry in the sort dropdown. *)
Definition sortItem_click (mode : string) : Js unit :=
  assign (set_sortMode mode) ;;
  refreshTasks ThenNothing.

(** The statements at the end of the script. *)
Definition main : Js unit :=
  initRecognizers ;;
  startWakeRecognition ;;
  refreshTasks ThenNothing ;;
  showStatus "Say 'Hey To Do' to start." "green".

(** ** The event loop *)

Inductive Event :=
| EvResult (k : kind) (i : nat) (transcript : string)
| EvError (k : kind) (i : nat)
| EvEnd (k : kind) (i : nat)
| EvUtteranceEnd
| EvTimeout
| EvReply (i : nat) (o : outcome)
| EvMuteClick
| EvClearClick
| EvConfirmYesClick
| EvConfirmNoClick
| EvOverlayClick
| EvManualSubmit (value : string)
| EvTaskPost (path : string) (body : payload)
| EvSortPick (mode : string).

Definition onresult (k : kind) (transcript : string) : Js unit :=
  match k with
  | Wake => wakeRecognition_onresult transcript
  | Command => commandRecognition_onresult transcript
  | Confirm => confirmRecognition_onresult transcript
  end.

Definition onerror (k : kind) : Js unit :=
  match k with
  | Wake => wakeRecognition_onerror
  | Command => commandRecognition_onerror
  | Confirm => confirmRecognition_onerror
  end.

Definition onend (k : kind) : Js unit :=
  match k with
  | Wake => wakeRecognition_onend
  | Command => commandRecognition_onend
  | Confirm => confirmRecognition_onend
  end.

Definition reply (k : kont) (o : outcome) : Js unit :=
  match k with
  | KSendCommandJson => sendCommandJson_reply o ;; ret tt
  | KRefreshTasks _ => refreshTasks_reply o
  | KListAll => listAllTasks_reply o
  | KListPending => listPendingTasks_reply o
  | KListCompleted => listCompletedTasks_reply o
  end.

(** A session that has been started and whose [end] event is still to
    come: the browser can deliver events to it. *)
Definition live (s : option status) : bool :=
  match s with
  | Some Capturing | Some Stopping => true
  | _ => false
  end.

(** A handler runs to completion; an exception that leaves it is reported
    by the browser and changes nothing more. *)
Definition exec (m : Js unit) (w : World) : World * list Effect :=
  (m w).1.

(** One browser event.  [None]: the browser cannot raise this event in
    this state. *)
Definition handle (ev : Event) (w : World) : option (World * list Effect) :=
  match ev with
  | EvResult k i t =>
      if live (sessions k (browser w) !! i)
      then Some (exec (onresult k t) w) else None
  | EvError k i =>
      if live (sessions k (browser w) !! i)
      then Some (exec (onerror k) w) else None
  | EvEnd k i =>
      let l := sessions k (browser w) in
      if live (l !! i)
      then Some (exec (write (on_browser (set_sessions k (<[i:=Inactive]> l))) ;;
                       onend k) w)
      else None
  | EvUtteranceEnd =>
      match utterances (browser w) with
      | u :: q =>
          Some (exec (write (on_browser (set_utterances q)) ;;
                      match u_onend u with
                      | Some cb => call cb
                      | None => ret tt
                      end) w)
      | [] => None
      end
  | EvTimeout =>
      match timers (browser w) with
      | S n => Some (exec (write (on_browser (set_timers n)) ;;
                           startWakeRecognition) w)
      | O => None
      end
  | EvReply i o =>
      let q := requests (browser w) in
      match q !! i with
      | Some (Some k) =>
          Some (exec (write (on_browser (set_requests (<[i:=None]> q))) ;;
                      reply k o) w)
      | _ => None
      end
  | EvMuteClick => Some (exec muteBtn_click w)
  | EvClearClick => Some (exec clearBtn_click w)
  | EvConfirmYesClick =>
      match confirmOverlay (dom w) with
      | Some true => Some (exec handleConfirmYes w)
      | _ => None
      end
  | EvConfirmNoClick | EvOverlayClick =>
      match confirmOverlay (dom w) with
      | Some true => Some (exec handleConfirmCancel w)
      | _ => None
      end
  | EvManualSubmit v => Some (exec (manualForm_submit v) w)
  | EvTaskPost path body => Some (exec (sendCommandJson path body) w)
  | EvSortPick mode => Some (exec (sortItem_click mode) w)
  end.

(** A sequence of events, with everything the handlers did. *)
Fixpoint run (evs : list Event) (w : World) : option (World * list Effect) :=
  match evs with
  | [] => Some (w, [])
  | ev :: evs' =>
      match handle ev w with
      | Some (w1, e1) =>
          match run evs' w1 with
          | Some (w2, e2) => Some (w2, e1 ++ e2)
          | None => None
          end
      | None => None
      end
  end.

(** The state that a sequence of events leads to. *)
Definition after (evs : list Event) (w : World) : World :=
  match run evs w with
  | Some (w', _) => w'
  | None => w
  end.

(** The page before the script has run, in a browser that has ([true])
    or lacks ([false]) speech recognition and speech synthesis. *)
Definition blank (recognition synth : bool) : World :=
  MkWorld
    (MkVars true None None false false "created" false None None None)
    (MkDom None "" ("", "#333") "Stop Listening" [])
    (MkBrowser recognition synth [] [] [] [] 0 []).

(** The page once the script has run. *)
Definition loaded (recognition synth : bool) : World :=
  (exec main (blank recognition synth)).1.

(** ** The earlier copy of the client ([script3.js])

    It has the same variables, recognizers, command parser and HTTP
    helpers.  It differs in [speak], which takes no completion callback,
    and therefore in [openConfirmDialog] and in the [onresult] handler
    of the confirmation recognizer; its wake test is
    [includes("hey to do") || includes("hello to do")]. *)

Module Script3.

Definition speak (text : string) : Js unit :=
  s <- read (λ w, has_synth (browser w)) ;;
  if negb s then ret tt
  else
    synth_cancel ;;
    synth_speak (Utterance text None).

(** The recognizer is set up and started in the body of the function,
    right after the call to [speak]. *)
Definition openConfirmDialog (message : string) (onConfirm : action)
    (onCancel : option action) (voicePrompt : option string) : Js unit :=
  initConfirmDialog ;;
  assign (set_inConfirmDialog true) ;;
  assign (set_confirmOnConfirm (Some onConfirm)) ;;
  assign (set_confirmOnCancel onCancel) ;;
  write (on_dom (set_confirmMessage message)) ;;
  write (on_dom (set_confirmOverlay (Some true))) ;;
  stopWakeRecognition ;;
  stopCommandRecognition ;;
  match truthy_field voicePrompt with
  | Some p => speak p
  | None => speak message
  end ;;
  sr <- read (λ w, has_recognition (browser w)) ;;
  if sr : bool then
    i <- rec_new Confirm ;;
    assign (set_confirmRecognition (Some i)) ;;
    try_catch confirmRecognition_start (ret tt)
  else ret tt.

Definition handleConfirmYes : Js unit :=
  closeConfirmDialog ;;
  a <- var confirmOnConfirm ;;
  match a with
  | Some f => run_action f
  | None => ret tt
  end.

Definition handleConfirmCancel : Js unit :=
  closeConfirmDialog ;;
  speak "Okay, I cancelled that action." ;;
  a <- var confirmOnCancel ;;
  match a with
  | Some f => run_action f
  | None => ret tt
  end.

Definition confirmRecognition_onresult (heard : string) : Js unit :=
  let transcript := Js.trim (Js.toLowerCase heard) in
  if Js.includes "confirm" transcript
     || String.eqb transcript "yes"
     || Js.includes "yeah" transcript
     || Js.includes "sure" transcript
  then handleConfirmYes
  else if Js.includes "cancel" transcript
          || Js.includes "no" transcript
          || Js.includes "nope" transcript
  then handleConfirmCancel
  else speak "I didn't catch that. Can you repeat?".

Definition confirmRecognition_onend : Js unit :=
  open <- var inConfirmDialog ;;
  if open : bool then try_catch confirmRecognition_start (ret tt) else ret tt.

Definition askForClearAllConfirmation : Js unit :=
  openConfirmDialog
    "This will delete ALL tasks and cannot be undone. Are you sure?"
    (ActSend "/clear")
    (Some ActNothing)
    (Some "Warning. This will delete all of your tasks. Are you sure?").

Definition clearBtn_click : Js unit := askForClearAllConfirmation.

End Script3.

(** ** The command grammar as the specification words it

    Section 4.4 of the specification: an ordered list of patterns, the
    first that matches decides.  [Spec.interpret] is that reading; it is
    compared with [processCommand] below. *)

Inductive intent :=
| AddTask (name : string)
| PromptForMissingArgument (question : string)
| MarkDone (name : string)
| DeleteByName (name : string)
| ClearCompleted
| ClearAll
| ListAll
| ListPending
| ListCompleted
| SetSortMode (mode : string)
| Unrecognized.

Module Spec.

(** A pattern looks at the trimmed command and, when it matches, names
    the intent. *)
Definition pattern := string → option intent.

Definition named (kw question cmd : string) : intent :=
  let name := Js.trim (Js.strip_keyword kw cmd) in
  if Js.truthy name then AddTask name else PromptForMissingArgument question.

Definition add_task : pattern := λ cmd,
  let lower := Js.toLowerCase cmd in
  if Js.startsWith "add " lower
  then Some (named "add" "What should I add?" cmd)
  else if Js.startsWith "remind me to " lower
  then Some (named "remind me to" "What should I remind you to do?" cmd)
  else None.

Definition mark_done : pattern := λ cmd,
  name ← Js.match_mark (Js.toLowerCase cmd); Some (MarkDone (Js.trim name)).

Definition delete_by_name : pattern := λ cmd,
  name ← Js.match_delete (Js.toLowerCase cmd); Some (DeleteByName (Js.trim name)).

Definition phrase (phrases : list string) (i : intent) : pattern := λ cmd,
  if any_of phrases (Js.toLowerCase cmd) then Some i else None.

Fixpoint first_match (ps : list pattern) (cmd : string) : option intent :=
  match ps with
  | [] => None
  | p :: ps' =>
      match p cmd with
      | Some i => Some i
      | None => first_match ps' cmd
      end
  end.

Definition clear_completed : pattern :=
  phrase ["clear completed"; "remove completed"] ClearCompleted.

Definition clear_all : pattern :=
  phrase ["clear all"; "remove all"] ClearAll.

Definition list_tasks : pattern :=
  first_match
    [ phrase ["list all tasks"; "what are my tasks"] ListAll;
      phrase ["list pending"; "pending tasks"] ListPending;
      phrase ["list completed"; "completed tasks"] ListCompleted ].

Definition set_sort_mode : pattern :=
  first_match
    [ phrase ["sort by priority"; "order by priority"] (SetSortMode "priority");
      phrase ["sort by category"; "order by category"] (SetSortMode "category");
      phrase ["sort by due"; "sort by date"; "sort by deadline";
              "order by due"; "order by date"; "order by deadline"]
        (SetSortMode "due");
      phrase ["sort by created"; "sort by added";
              "order by created"; "order by added"] (SetSortMode "created") ].

(** The fixed order of the specification. *)
Definition patterns : list pattern :=
  [ add_task; mark_done; delete_by_name; clear_completed; clear_all;
    list_tasks; set_sort_mode ].

Definition interpret (cmd : string) : intent :=
  default Unrecognized (first_match patterns cmd).

Definition announcement (mode : string) : string :=
  if String.eqb mode "priority" then "Sorting by priority."
  else if String.eqb mode "category" then "Sorting by category."
  else if String.eqb mode "due" then "Sorting by due date."
  else "Sorting by created time.".

(** What each intent sets off. *)
Definition dispatch (i : intent) : Js unit :=
  match i with
  | AddTask name => sendCommandJson "/add" [("task", name)]
  | PromptForMissingArgument question => speak question None
  | MarkDone name => sendCommandJson "/mark-by-name" [("name", name)]
  | DeleteByName name => sendCommandJson "/delete-by-name" [("name", name)]
  | ClearCompleted => askForClearCompletedConfirmation
  | ClearAll => askForClearAllConfirmation
  | ListAll => listAllTasks
  | ListPending => listPendingTasks
  | ListCompleted => listCompletedTasks
  | SetSortMode mode => sort_by mode (announcement mode)
  | Unrecognized => speak "Sorry, I did not understand that." None
  end.

End Spec.

(** ** Predicates on states and effects *)

Definition is_capturing (s : status) : bool :=
  match s with Capturing => true | _ => false end.

Definition count_capturing (l : list status) : nat :=
  length (filter (λ s, is_capturing s = true) l).

(** The sessions that are capturing audio, of all three kinds. *)
Definition capturing (w : World) : nat :=
  count_capturing (wake_sessions (browser w))
  + count_capturing (command_sessions (browser w))
  + count_capturing (confirm_sessions (browser w)).

Definition is_fetch (e : Effect) : bool :=
  match e with EFetch _ _ _ => true | _ => false end.

Definition is_start (e : Effect) : bool :=
  match e with EStart _ _ => true | _ => false end.

Definition is_start_of (k : kind) (e : Effect) : bool :=
  match e, k with
  | EStart Wake _, Wake | EStart Command _, Command
  | EStart Confirm _, Confirm => true
  | _, _ => false
  end.



(** The test of [wakeRecognition.onresult]: the wake word is detected. *)
Definition wake_detected (heard : string) (w : World) : bool :=
  wakeWordHeard (Js.trim heard)
  && negb (inCommandMode (vars w)) && negb (inConfirmDialog (vars w)).

(** The state [AwaitingCommand] of the specification: the wake word has
    been detected, the prompt is over, the command recognizer [i] is the
    one session that captures, and the wake sessions have ended. *)
Definition awaiting_command (i : nat) (w : World) : Prop :=
  listening (vars w) = true
  ∧ inCommandMode (vars w) = true
  ∧ inConfirmDialog (vars w) = false
  ∧ commandRecognition (vars w) = Some i
  ∧ command_sessions (browser w) !! i = Some Capturing
  ∧ capturing w = 1
  ∧ Forall (λ s, s = Inactive) (wake_sessions (browser w)).


(** The test of the confirmation recognizer, read off the specification
    with the one exact comparison the script makes. *)
Definition accept_phrase (t : string) : bool :=
  Js.includes "confirm" t || String.eqb t "yes"
  || Js.includes "yeah" t || Js.includes "sure" t.

Definition decline_phrase (t : string) : bool :=
  Js.includes "cancel" t || Js.includes "no" t || Js.includes "nope" t.

(** The dialog is resolved by acceptance: it is closed and the confirm
    action has run. *)
Definition accepted (w w' : World) (effs : list Effect) : Prop :=
  inConfirmDialog (vars w') = false
  ∧ confirmRecognition (vars w') = None
  ∧ ∀ path, confirmOnConfirm (vars w) = Some (ActSend path) →
            EFetch POST path [] ∈ effs.

(** The dialog is resolved by refusal: it is closed, the cancellation is
    spoken and the cancel action has run. *)
Definition declined (w w' : World) (effs : list Effect) : Prop :=
  inConfirmDialog (vars w') = false
  ∧ confirmRecognition (vars w') = None
  ∧ (has_synth (browser w) = true →
     ESpeak "Okay, I cancelled that action." ∈ effs)
  ∧ (∀ path, confirmOnCancel (vars w) = Some (ActSend path) →
             EFetch POST path [] ∈ effs)
  ∧ (confirmOnCancel (vars w) = Some ActNothing ∨ confirmOnCancel (vars w) = None →
     Forall (λ e, is_fetch e = false) effs).

(** From a state in [I], the computation ends in [I], normally or by an
    exception, and every effect it has is in [Q]. *)
Definition safe (I : World → Prop) (Q : Effect → Prop) {A} (m : Js A)
    (w : World) : Prop :=
  I w → I (m w).1.1 ∧ Forall Q (m w).1.2.

(** The computation, run from [w], ends in [I] with effects in [Q]. *)
Definition establishes (I : World → Prop) (Q : Effect → Prop) {A} (m : Js A)
    (w : World) : Prop :=
  I (m w).1.1 ∧ Forall Q (m w).1.2.

(** The dialog as [openConfirmDialog] sets it up. *)
Definition dialog_open (message : string) (onConfirm : action)
    (onCancel : option action) (synth recognition : bool) (w : World) : Prop :=
  inConfirmDialog (vars w) = true
  ∧ confirmOnConfirm (vars w) = Some onConfirm
  ∧ confirmOnCancel (vars w) = onCancel
  ∧ confirmOverlay (dom w) = Some true
  ∧ confirmMessage (dom w) = message
  ∧ has_synth (browser w) = synth
  ∧ has_recognition (browser w) = recognition.

Definition not_fetch (e : Effect) : Prop := is_fetch e = false.

(** What [speak(text)], without a callback, does to the outside. *)
Definition spoken (w : World) (text : string) : list Effect :=
  if has_synth (browser w) then [ECancel; ESpeak text] else [].

Definition not_command_start (e : Effect) : Prop := is_start_of Command e = false.


(** Speech synthesis is there and no confirmation recognizer has been
    created beyond the first [n]. *)
Definition confirm_count (n : nat) (w : World) : Prop :=
  has_synth (browser w) = true ∧ length (confirm_sessions (browser w)) = n.

Definition first_char (s : string) : option ascii :=
  match s with String c _ => Some c | EmptyString => None end.

Fixpoint last_char (s : string) : option ascii :=
  match s with
  | EmptyString => None
  | String c EmptyString => Some c
  | String _ r => last_char r
  end.

(** Whether a text ends inside a run of white space, given whether it
    started inside one. *)
Fixpoint ends_in_run (b : bool) (x : string) : bool :=
  match x with
  | EmptyString => b
  | String c r => ends_in_run (Js.is_space c) r
  end.

(** A phrase that normalization leaves alone wherever it stands: it
    starts and ends with something other than white space, and is
    untouched by the replacement of punctuation and by the collapse of
    white space, whatever precedes it. *)
Definition solid (p : string) : bool :=
  match first_char p, last_char p with
  | Some a, Some z =>
      negb (Js.is_space a) && negb (Js.is_space z)
      && String.eqb (Js.replace_punct p) p
      && String.eqb (Js.collapse_from true p) p
      && String.eqb (Js.collapse_from false p) p
  | _, _ => false
  end.

(** Only white space. *)
Definition blank_string (s : string) : bool := Js.all Js.is_space s.

(** * Further parts of the client *)

(** ** Task rows *)

(** The handlers of a task's check box and of its Delete button; the
    request body is [{ id }]. *)
Definition toggleTask (id : nat) : Js unit :=
  sendCommandJson "/toggle" [("id", Js.of_nat id)].

Definition deleteTask (id : nat) : Js unit :=
  sendCommandJson "/delete" [("id", Js.of_nat id)].

(** The entries that [addSortDropdown] gives the sort menu, each with
    its [value] and its [label]. *)
Definition options : list (string * string) :=
  [ ("created", "Created At"); ("priority", "Priority");
    ("category", "Category"); ("due", "Due Date") ].

(** ** Long press on a task row

    [attachLongPressDelete] closes over two variables per row.  The
    browser side of it is the set of 650 ms timers that are armed, the
    identifier that the next [setTimeout] returns, and the pending 300 ms
    timers that take the highlight away. *)

Module LongPress.

Record state := MkState {
  pressTimer : option nat;
  longPressTriggered : bool;
  highlighted : bool;
  armed : list nat;
  next_timer : nat;
  fading : nat }.

(** [touchstart] and [mousedown] *)
Definition start (s : state) : state :=
  MkState (Some (next_timer s)) false (highlighted s)
    (armed s ++ [next_timer s]) (S (next_timer s)) (fading s).

(** [touchend], [touchmove], [touchcancel], [mouseup] and [mouseleave];
    [clearTimeout] on a timer that has fired does nothing. *)
Definition cancel (s : state) : state :=
  match pressTimer s with
  | Some i =>
      MkState None (longPressTriggered s) (highlighted s)
        (filter (λ j, j ≠ i) (armed s)) (next_timer s) (fading s)
  | None => s
  end.

(** The callback of a 650 ms timer; [answer] is the user's reply to
    [confirm("Long press detected. Delete this task?")].  The result
    names the task that [deleteTask] is called on. *)
Definition elapsed (taskId : nat) (answer : bool) (s : state)
  : state * option nat :=
  (MkState (pressTimer s) true true (armed s) (next_timer s) (S (fading s)),
   if answer then Some taskId else None).

(** The callback of a 300 ms timer. *)
Definition fade (s : state) : state :=
  MkState (pressTimer s) (longPressTriggered s) false (armed s)
    (next_timer s) (fading s).

Inductive event :=
| Press
| Release
| Elapsed (i : nat) (answer : bool)
| Fade.

(** One event on the row of task [taskId]; a timer fires only while it
    is armed, and then leaves the set.  The second component is the task
    that the event asks to delete. *)
Definition handle (taskId : nat) (ev : event) (s : state)
  : option (state * option nat) :=
  match ev with
  | Press => Some (start s, None)
  | Release => Some (cancel s, None)
  | Elapsed i answer =>
      if bool_decide (i ∈ armed s)
      then Some (elapsed taskId answer
                   (MkState (pressTimer s) (longPressTriggered s) (highlighted s)
                      (filter (λ j, j ≠ i) (armed s)) (next_timer s) (fading s)))
      else None
  | Fade =>
      match fading s with
      | S n =>
          Some (fade (MkState (pressTimer s) (longPressTriggered s) (highlighted s)
                        (armed s) (next_timer s) n), None)
      | O => None
      end
  end.

(** The events of a row in order, with the deletions they ask for. *)
Fixpoint run (taskId : nat) (evs : list event) (s : state)
  : option (state * list nat) :=
  match evs with
  | [] => Some (s, [])
  | ev :: evs' =>
      match handle taskId ev s with
      | Some (s1, d) =>
          match run taskId evs' s1 with
          | Some (s2, ds) => Some (s2, option_list d ++ ds)
          | None => None
          end
      | None => None
      end
  end.

(** A row as [attachLongPressDelete] leaves it. *)
Definition attached : state := MkState None false false [] 0 0.

(** The presses and releases of one pointer: no press while it is
    down ([down] tells whether it is at the start). *)
Fixpoint one_pointer (down : bool) (evs : list event) : bool :=
  match evs with
  | [] => true
  | Press :: evs' => negb down && one_pointer true evs'
  | Release :: evs' => one_pointer false evs'
  | _ :: evs' => one_pointer down evs'
  end.

(** A timer that is armed is the one that [pressTimer] holds, and none
    is armed while the pointer is up. *)
Definition held (down : bool) (s : state) : Prop :=
  (∀ i, i ∈ armed s → pressTimer s = Some i)
  ∧ (down = false → armed s = []).

End LongPress.

(** ** The Edit Task dialog *)

(** What the form controls of the dialog do with the values that the
    script assigns to them and reads back. *)
Module Html.

(** A text field after [field.value = s]: [s] without its line breaks. *)
Fixpoint text_value (s : string) : string :=
  match s with
  | EmptyString => EmptyString
  | String c r =>
      if Js.is_line_terminator c then text_value r else String c (text_value r)
  end.

(** A [select] after [select.value = v]: the option of that value is
    selected; when there is none, no option is, and the value reads as
    the empty string. *)
Definition select_value (values : list string) (v : string) : string :=
  if existsb (String.eqb v) values then v else "".

Definition digit (c : ascii) : option Z :=
  let n := nat_of_ascii c in
  if (48 <=? n) && (n <=? 57) then Some (Z.of_nat (n - 48)) else None.

(** The number that the longest prefix of decimal digits denotes, from
    the value [acc] of the digits already read. *)
Fixpoint digits (acc : option Z) (s : string) : option Z :=
  match s with
  | EmptyString => acc
  | String c r =>
      match digit c with
      | Some d => digits (Some (10 * default 0 acc + d)%Z) r
      | None => acc
      end
  end.

(** [parseInt(s, 10)]; [None] is [NaN]. *)
Definition parseInt (s : string) : option Z :=
  match Js.trimStart s with
  | String "-" r => Z.opp <$> digits None r
  | String "+" r => digits None r
  | r => digits None r
  end.

End Html.

(** The controls of the modal, which exist once [initEditDialog] has
    run. *)
Record EditFields := MkEditFields {
  editDisplayed : bool;
  editNameInput : string;
  editPrioritySelect : string;
  editCategoryInput : string;
  editDueInput : string }.

Record EditDialog := MkEditDialog {
  editOverlay : option EditFields;
  currentEditTaskId : option nat }.

Definition priorities : list (nat * string) :=
  [(1, "Low"); (2, "Medium"); (3, "High")].

Definition priority_values : list string :=
  (λ p, Js.of_nat p.1) <$> priorities.

(** The modal as built: hidden, its text fields empty, the first
    priority selected. *)
Definition new_fields : EditFields :=
  MkEditFields false "" (default "" (head priority_values)) "" "".

Definition initEditDialog (e : EditDialog) : EditDialog :=
  match editOverlay e with
  | Some _ => e
  | None => MkEditDialog (Some new_fields) (currentEditTaskId e)
  end.

(** The payload of [/update]. *)
Record update := MkUpdate {
  up_id : nat;
  up_name : string;
  up_priority : Z;
  up_category : string;
  up_due_date : option string }.

(** How a call of [openEditDialog] ends: normally, or in the
    [RangeError] of [toISOString] on an invalid date. *)
Inductive opened :=
| Opened (e : EditDialog)
| RangeError (e : EditDialog).

Definition dialog_of (o : opened) : EditDialog :=
  match o with Opened e | RangeError e => e end.

(** How a click on Save ends: the dialog is closed for want of a current
    task, the user is alerted, the request is sent and awaited, or a
    control is missing. *)
Inductive saved :=
| SaveClosed
| SaveAlert (msg : string)
| SaveAwait (u : update)
| SaveTypeError.

Section edit.

(** What the date field holds after
    [editDueInput.value = new Date(due).toISOString().slice(0, 10)];
    [None] where the date is invalid. *)
Variable date_field : string → option string.

Definition openEditDialog (t : task) (e : EditDialog) : opened :=
  let e := initEditDialog e in
  match editOverlay e with
  | None => Opened e
  | Some f =>
      let name := Html.text_value (t_name t) in
      let priority :=
        Html.select_value priority_values
          (Js.of_nat (if t_priority t =? 0 then 1 else t_priority t)) in
      let category :=
        Html.text_value
          (if Js.truthy (t_category t) && negb (String.eqb (t_category t) "general")
           then t_category t else "") in
      match truthy_field (t_due_date t) with
      | Some due =>
          match date_field due with
          | Some v =>
              Opened (MkEditDialog (Some (MkEditFields true name priority category v))
                        (Some (t_id t)))
          | None =>
              RangeError
                (MkEditDialog
                   (Some (MkEditFields (editDisplayed f) name priority category
                            (editDueInput f)))
                   (Some (t_id t)))
          end
      | None =>
          Opened (MkEditDialog (Some (MkEditFields true name priority category ""))
                    (Some (t_id t)))
      end
  end.

End edit.

Definition handleEditCancel (e : EditDialog) : EditDialog :=
  MkEditDialog
    (f ← editOverlay e;
     Some (MkEditFields false (editNameInput f) (editPrioritySelect f)
             (editCategoryInput f) (editDueInput f)))
    None.

(** [handleEditSave] up to its [await]. *)
Definition handleEditSave (e : EditDialog) : EditDialog * saved :=
  match currentEditTaskId e with
  | None | Some 0 => (handleEditCancel e, SaveClosed)
  | Some id =>
      match editOverlay e with
      | None => (e, SaveTypeError)
      | Some f =>
          let name := Js.trim (editNameInput f) in
          let category := Js.trim (editCategoryInput f) in
          if negb (Js.truthy name)
          then (e, SaveAlert "Task name cannot be empty.")
          else
            (e, SaveAwait
                  (MkUpdate id name
                     match Html.parseInt (editPrioritySelect f) with
                     | None | Some 0%Z => 1%Z
                     | Some n => n
                     end
                     (if Js.truthy category then category else "general")
                     (truthy_field (Some (editDueInput f)))))
      end
  end.

(** [handleEditSave] after its [await]: [result] is what
    [sendCommandJson] has returned. *)
Definition handleEditSave_resume (result : option json) (e : EditDialog)
  : EditDialog :=
  match result with
  | Some _ => handleEditCancel e
  | None => e
  end.

(** The fields of the payload as the request body lists them: a number
    by its digits, [null] by its name. *)
Definition update_body (u : update) : payload :=
  [ ("id", Js.of_nat (up_id u)); ("name", up_name u);
    ("priority", NilZero.string_of_int (Z.to_int (up_priority u)));
    ("category", up_category u);
    ("due_date", default "null" (up_due_date u)) ].

Definition sendUpdate (u : update) : Js unit :=
  sendCommandJson "/update" (update_body u).

(** What the user and the network do to the dialog. *)
Inductive EditEvent :=
| EdPencil (t : task)
| EdName (s : string)
| EdPriority (i : nat)
| EdCategory (s : string)
| EdDue (s : string)
| EdSave
| EdCancel
| EdResult (result : option json).

Inductive EditEffect :=
| EAlert (msg : string)
| EUpdate (u : update).

(** The dialog and the number of its saves that wait for their reply. *)
Record EditState := MkEditState { dialog : EditDialog; awaited : nat }.

(** The modal is on screen. *)
Definition displayed (e : EditDialog) : bool :=
  match editOverlay e with
  | Some f => editDisplayed f
  | None => false
  end.

(** The user changes a control of the modal, which takes input only
    while it is on screen. *)
Definition with_fields (g : EditFields → EditFields) (s : EditState)
  : option (EditState * list EditEffect) :=
  f ← editOverlay (dialog s);
  if editDisplayed f
  then Some (MkEditState (MkEditDialog (Some (g f)) (currentEditTaskId (dialog s)))
               (awaited s), [])
  else None.

Section edit_events.

Variable date_field : string → option string.

(** One event of the dialog.  Its buttons can be clicked only while it
    is on screen, and the reply of a save comes only while one is
    awaited. *)
Definition edit_handle (ev : EditEvent) (s : EditState)
  : option (EditState * list EditEffect) :=
  match ev with
  | EdPencil t =>
      Some (MkEditState (dialog_of (openEditDialog date_field t (dialog s)))
              (awaited s), [])
  | EdName v =>
      with_fields (λ f, MkEditFields (editDisplayed f) (Html.text_value v)
                          (editPrioritySelect f) (editCategoryInput f)
                          (editDueInput f)) s
  | EdPriority i =>
      v ← priority_values !! i;
      with_fields (λ f, MkEditFields (editDisplayed f) (editNameInput f) v
                          (editCategoryInput f) (editDueInput f)) s
  | EdCategory v =>
      with_fields (λ f, MkEditFields (editDisplayed f) (editNameInput f)
                          (editPrioritySelect f) (Html.text_value v)
                          (editDueInput f)) s
  | EdDue v =>
      with_fields (λ f, MkEditFields (editDisplayed f) (editNameInput f)
                          (editPrioritySelect f) (editCategoryInput f) v) s
  | EdSave =>
      if displayed (dialog s) then
        match handleEditSave (dialog s) with
        | (e, SaveAwait u) => Some (MkEditState e (S (awaited s)), [EUpdate u])
        | (e, SaveAlert msg) => Some (MkEditState e (awaited s), [EAlert msg])
        | (e, _) => Some (MkEditState e (awaited s), [])
        end
      else None
  | EdCancel =>
      if displayed (dialog s)
      then Some (MkEditState (handleEditCancel (dialog s)) (awaited s), [])
      else None
  | EdResult result =>
      match awaited s with
      | S n => Some (MkEditState (handleEditSave_resume result (dialog s)) n, [])
      | O => None
      end
  end.

Fixpoint edit_run (evs : list EditEvent) (s : EditState)
  : option (EditState * list EditEffect) :=
  match evs with
  | [] => Some (s, [])
  | ev :: evs' =>
      match edit_handle ev s with
      | Some (s1, e1) =>
          match edit_run evs' s1 with
          | Some (s2, e2) => Some (s2, e1 ++ e2)
          | None => None
          end
      | None => None
      end
  end.

End edit_events.

(** The page before any pencil has been clicked. *)
Definition no_dialog : EditState := MkEditState (MkEditDialog None None) 0.

(** ** The earlier copy: wake word and commands *)

Module Script3Voice.

(** The test of the earlier [wakeRecognition.onresult], on the
    transcript trimmed and lower-cased. *)
Definition wake_heard (heard : string) : bool :=
  let transcript := Js.toLowerCase (Js.trim heard) in
  Js.includes "hey to do" transcript || Js.includes "hello to do" transcript.

Definition wakeRecognition_onresult (heard : string) : Js unit :=
  busy <- var inCommandMode ;;
  dialog <- var inConfirmDialog ;;
  if wake_heard heard && negb busy && negb dialog then
    assign (set_inCommandMode true) ;;
    stopWakeRecognition ;;
    showStatus "Listening for command..." "blue" ;;
    synth_speak (Utterance "Yes?" (Some CbStartCommand))
  else ret tt.

Definition askForClearCompletedConfirmation : Js unit :=
  Script3.openConfirmDialog
    "This will delete all completed tasks and cannot be undone. Are you sure?"
    (ActSend "/clear-completed")
    (Some ActNothing)
    (Some "You asked to clear all completed tasks. Are you sure?").

Definition sort_by (mode announce : string) : Js unit :=
  assign (set_sortMode mode) ;;
  Script3.speak announce ;;
  refreshTasks ThenNothing.

Definition processCommand (cmd : option string) : Js unit :=
  match cmd with
  | None => ret tt
  | Some cmd =>
  if negb (Js.truthy cmd) then ret tt else
  let cmd := Js.trim cmd in
  if negb (Js.truthy cmd) then ret tt else
  let lower := Js.toLowerCase cmd in
  if Js.startsWith "add " lower then
    let name := Js.trim (Js.strip_keyword "add" cmd) in
    if negb (Js.truthy name) then Script3.speak "What should I add?"
    else sendCommandJson "/add" [("task", name)]
  else if Js.startsWith "remind me to " lower then
    let name := Js.trim (Js.strip_keyword "remind me to" cmd) in
    if negb (Js.truthy name) then Script3.speak "What should I remind you to do?"
    else sendCommandJson "/add" [("task", name)]
  else
  match Js.match_mark lower with
  | Some name => sendCommandJson "/mark-by-name" [("name", Js.trim name)]
  | None =>
  match Js.match_delete lower with
  | Some name => sendCommandJson "/delete-by-name" [("name", Js.trim name)]
  | None =>
  if any_of ["clear completed"; "remove completed"] lower
  then askForClearCompletedConfirmation
  else if any_of ["clear all"; "remove all"] lower
  then Script3.askForClearAllConfirmation
  else if any_of ["list all tasks"; "what are my tasks"] lower
  then listAllTasks
  else if any_of ["list pending"; "pending tasks"] lower
  then listPendingTasks
  else if any_of ["list completed"; "completed tasks"] lower
  then listCompletedTasks
  else if any_of ["sort by priority"; "order by priority"] lower
  then sort_by "priority" "Sorting by priority."
  else if any_of ["sort by category"; "order by category"] lower
  then sort_by "category" "Sorting by category."
  else if any_of ["sort by due"; "sort by date"; "sort by deadline";
                  "order by due"; "order by date"; "order by deadline"] lower
  then sort_by "due" "Sorting by due date."
  else if any_of ["sort by created"; "sort by added";
                  "order by created"; "order by added"] lower
  then sort_by "created" "Sorting by created time."
  else Script3.speak "Sorry, I didn't understand that."
  end end end.

End Script3Voice.

(** ** Predicates for the further properties *)

(** The browser has no speech recognition and no session exists. *)
Definition no_recognition (w : World) : Prop :=
  has_recognition (browser w) = false
  ∧ wake_sessions (browser w) = []
  ∧ command_sessions (browser w) = []
  ∧ confirm_sessions (browser w) = [].

Definition not_start (e : Effect) : Prop := is_start e = false.

(** The browser has no speech synthesis, and nothing waits to be
    spoken. *)
Definition no_synth (w : World) : Prop :=
  has_synth (browser w) = false ∧ utterances (browser w) = [].

Definition any_effect (e : Effect) : Prop := True.

(** The effects of a sequence of events. *)
Definition effects (evs : list Event) (w : World) : list Effect :=
  match run evs w with
  | Some (_, effs) => effs
  | None => []
  end.

(** The modal is on screen exactly when the script is in its
    confirmation mode. *)
Definition dialog_shown (w : World) : Prop :=
  inConfirmDialog (vars w) = true ↔ confirmOverlay (dom w) = Some true.

(** One of the values of the sort menu. *)
Definition sort_value (mode : string) : bool :=
  existsb (String.eqb mode) options.*1.

(** The events as the page can raise them: a task row posts to
    [/toggle], [/delete] or, through the edit dialog, [/update], and the
    sort menu offers its own entries. *)
Definition from_page (ev : Event) : bool :=
  match ev with
  | EvTaskPost path _ => existsb (String.eqb path) ["/toggle"; "/delete"; "/update"]
  | EvSortPick mode => sort_value mode
  | _ => true
  end.

(** A request that clears tasks. *)
Definition is_clear (e : Effect) : bool :=
  match e with
  | EFetch POST path _ => String.eqb path "/clear" || String.eqb path "/clear-completed"
  | _ => false
  end.

Definition not_clear (e : Effect) : Prop := is_clear e = false.

(** The events that accept a confirmation: a click on Yes, and a reply
    that the confirmation recognizer takes for an acceptance. *)
Definition confirms (ev : Event) : bool :=
  match ev with
  | EvConfirmYesClick => true
  | EvResult Confirm _ heard => accept_phrase (Js.trim (Js.toLowerCase heard))
  | _ => false
  end.

(** The action on refusal makes no request. *)
Definition cancel_is_silent (w : World) : Prop :=
  confirmOnCancel (vars w) = None ∨ confirmOnCancel (vars w) = Some ActNothing.

(** [wakeRunning] is set only while the page listens and the current
    wake recognizer captures; [r] tells whether the browser has speech
    recognition. *)
Definition wake_flag (r : bool) (w : World) : Prop :=
  has_recognition (browser w) = r
  ∧ (wakeRunning (vars w) = true →
     listening (vars w) = true
     ∧ ∃ i, wakeRecognition (vars w) = Some i
            ∧ wake_sessions (browser w) !! i = Some Capturing).



(** An update that names a task, a name that is not blank, one of the
    three priorities and a category. *)
Definition well_formed (u : update) : Prop :=
  up_id u ≠ 0
  ∧ Js.truthy (up_name u) = true ∧ Js.trim (up_name u) = up_name u
  ∧ (1 ≤ up_priority u ≤ 3)%Z
  ∧ Js.truthy (up_category u) = true ∧ Js.trim (up_category u) = up_category u
  ∧ up_due_date u ≠ Some "".

(** The priority menu holds one of its values, or none. *)
Definition select_ok (s : EditState) : Prop :=
  ∀ f, editOverlay (dialog s) = Some f →
       editPrioritySelect f = "" ∨ editPrioritySelect f ∈ priority_values.

Definition sort_known (w : World) : Prop :=
  sort_value (sortMode (vars w)) = true.

(** A request for the task list names no sort mode or one of the
    menu's. *)
Definition tasks_request (e : Effect) : Prop :=
  match e with
  | EFetch GET path _ =>
      path = "/tasks"
      ∨ ∃ mode, sort_value mode = true ∧ path = "/tasks?sort=" +:+ mode
  | _ => True
  end.

(** The intents that the earlier copy handles as the current script
    does: all but the two that ask for a confirmation, and the apology,
    whose wording differs. *)
Definition same_in_script3 (i : intent) : bool :=
  match i with
  | ClearCompleted | ClearAll | Unrecognized => false
  | _ => true
  end.

(** * Proofs *)

(** ** Tactics *)

(** The monad and the browser primitives, unfolded for evaluation. *)
Ltac js_unfold :=
  cbv beta iota zeta delta
    [bind ret throw try_catch read write emit var assign exec
     rec_new rec_start rec_stop synth_cancel synth_speak
     setTimeout_startWake fetch playDing showStatus
     on_vars on_dom on_browser sessions set_sessions
     set_listening set_wakeRecognition set_commandRecognition set_wakeRunning
     set_inCommandMode set_sortMode set_inConfirmDialog set_confirmRecognition
     set_confirmOnConfirm set_confirmOnCancel
     set_confirmOverlay set_confirmMessage set_statusText set_muteLabel
     set_taskList set_utterances set_timers set_requests] in *.

(** Case analysis on the innermost test that blocks evaluation. *)
Ltac js_case :=
  match goal with
  | |- context [match ?x with _ => _ end] =>
      lazymatch x with
      | context [match _ with _ => _ end] => fail
      | _ => destruct x eqn:?
      end
  end.

Ltac js_eval := js_unfold; simpl; repeat (js_case; simplify_eq; simpl).

(** Membership in an explicit list of effects. *)
Ltac elem_cases :=
  repeat match goal with
         | H : _ ∈ [] |- _ => by apply elem_of_nil in H
         | H : _ ∈ _ :: _ |- _ => apply elem_of_cons in H as [H | H]
         end;
  simplify_eq.

(** Evaluation of a closed list of effects in a membership goal. *)
Ltac eval_elem :=
  match goal with
  | |- _ ∈ ?l =>
      let l' := eval vm_compute in l in
      replace l with l' by (vm_compute; reflexivity);
      rewrite ?elem_of_cons; tauto
  end.

Ltac head_of t :=
  lazymatch t with
  | ?f _ => head_of f
  | _ => t
  end.

(** ** Facts about the string primitives *)

Section strings.
Implicit Types (s p x y : string) (c : ascii).

Lemma append_cons c x y : String c x +:+ y = String c (x +:+ y).
Proof. reflexivity. Qed.

Lemma append_empty y : "" +:+ y = y.
Proof. reflexivity. Qed.

Lemma append_assoc x y s : (x +:+ y) +:+ s = x +:+ (y +:+ s).
Proof.
  induction x as [|c x IH]; [done |].
  by rewrite !append_cons, IH.
Qed.

Lemma map_append f x y : Js.map f (x +:+ y) = Js.map f x +:+ Js.map f y.
Proof.
  induction x as [|c x IH]; [done |].
  rewrite append_cons. simpl. by rewrite IH.
Qed.

Lemma startsWith_append p s : Js.startsWith p (p +:+ s) = true.
Proof.
  induction p as [|c p IH]; [done |].
  rewrite append_cons. simpl. by rewrite Ascii.eqb_refl.
Qed.

Lemma includes_here p s : Js.startsWith p s = true → Js.includes p s = true.
Proof. intros H. destruct s; simpl; rewrite H; done. Qed.

Lemma includes_append p x y : Js.includes p (x +:+ p +:+ y) = true.
Proof.
  induction x as [|c x IH].
  - rewrite append_empty. apply includes_here, startsWith_append.
  - rewrite append_cons. simpl. rewrite IH. apply orb_true_r.
Qed.



Lemma collapse_from_append b x y :
  Js.collapse_from b (x +:+ y)
  = Js.collapse_from b x +:+ Js.collapse_from (ends_in_run b x) y.
Proof.
  revert b. induction x as [|c x IH]; intros b; [done |].
  rewrite append_cons. simpl.
  destruct (Js.is_space c); [destruct b |]; by rewrite IH.
Qed.

Lemma trimStart_append x c y :
  Js.is_space c = false →
  ∃ x', Js.trimStart (x +:+ String c y) = x' +:+ String c y.
Proof.
  intros Hc. induction x as [|a x IH].
  - exists "". rewrite append_empty. simpl. by rewrite Hc.
  - rewrite append_cons. simpl.
    destruct (Js.is_space a); [done |]. by exists (String a x).
Qed.

Lemma trimEnd_keeps x y :
  Js.trimEnd y ≠ "" → Js.trimEnd (x +:+ y) = x +:+ Js.trimEnd y.
Proof.
  intros Hy. induction x as [|a x IH]; [done |].
  rewrite !append_cons. simpl. rewrite IH.
  destruct x; [| done].
  rewrite append_empty. destruct (Js.trimEnd y); done.
Qed.

Lemma trimEnd_append x c y :
  Js.is_space c = false →
  ∃ y', Js.trimEnd (x +:+ String c y) = x +:+ String c y'.
Proof.
  intros Hc.
  assert (∃ y', Js.trimEnd (String c y) = String c y') as [y' Hy'].
  { simpl. destruct (Js.trimEnd y); rewrite ?Hc; eauto. }
  exists y'. rewrite trimEnd_keeps; by rewrite Hy'.
Qed.

Lemma first_char_Some s c : first_char s = Some c → ∃ r, s = String c r.
Proof. destruct s; naive_solver. Qed.

Lemma last_char_Some s c : last_char s = Some c → ∃ r, s = r +:+ String c "".
Proof.
  induction s as [|a s IH]; [done |]. simpl.
  destruct s as [|b s].
  - intros [= ->]. by exists "".
  - intros [r Hr]%IH. exists (String a r). by rewrite append_cons, <- Hr.
Qed.

Lemma ends_in_run_last b s c :
  last_char s = Some c → ends_in_run b s = Js.is_space c.
Proof.
  revert b. induction s as [|a s IH]; intros b; [done |]. simpl.
  destruct s as [|a' s]; [by intros [= ->] |]. intros H. by apply IH.
Qed.

Lemma normalize_embedded p pre q post :
  solid p = true → Js.toLowerCase q = p →
  ∃ a b, normalize (pre +:+ q +:+ post) = a +:+ p +:+ b.
Proof.
  unfold solid. intros Hp Hq.
  destruct (first_char p) as [a|] eqn:Ha; [| done].
  destruct (last_char p) as [z|] eqn:Hz; [| done].
  repeat (apply andb_prop in Hp as [Hp ?]).
  repeat match goal with
         | H : String.eqb _ _ = true |- _ => apply String.eqb_eq in H
         | H : negb _ = true |- _ => apply negb_true_iff in H
         end.
  assert (∀ b, Js.collapse_from b p = p) as Hcol by (by intros []).
  unfold normalize, Js.toLowerCase, Js.replace_punct, Js.collapse_spaces.
  rewrite !map_append. fold (Js.toLowerCase q). rewrite Hq.
  fold (Js.replace_punct p). replace (Js.replace_punct p) with p.
  rewrite !collapse_from_append, Hcol, (ends_in_run_last _ p z) by done.
  set (x := Js.collapse_from _ _). set (y := Js.collapse_from _ _).
  apply first_char_Some in Ha as [r Hr].
  destruct (trimStart_append x a (r +:+ y)) as [x' Hx']; [done |].
  apply last_char_Some in Hz as [r' Hr'].
  destruct (trimEnd_append (x' +:+ r') z y) as [y' Hy']; [done |].
  exists x', y'. unfold Js.trim.
  rewrite Hr at 1. rewrite append_cons, Hx', <- append_cons, <- Hr.
  rewrite Hr' at 1. rewrite !append_assoc in *. rewrite !append_cons in *.
  rewrite append_empty in *. rewrite Hy'.
  by rewrite Hr', !append_assoc, append_cons, append_empty.
Qed.

Lemma truthy_append x y : Js.truthy y = true → Js.truthy (x +:+ y) = true.
Proof. destruct x; [done |]. by rewrite append_cons. Qed.

Lemma truthy_append_l x y : Js.truthy x = true → Js.truthy (x +:+ y) = true.
Proof. destruct x; [done |]. by rewrite append_cons. Qed.

End strings.

(** ** The wake word *)

Lemma wakeVariants_solid : forallb solid wakeVariants = true.
Proof. vm_compute. reflexivity. Qed.

Lemma wakeWordHeard_embedded p pre q post :
  In p wakeVariants → Js.toLowerCase q = p →
  wakeWordHeard (pre +:+ q +:+ post) = true.
Proof.
  intros Hin Hq.
  pose proof wakeVariants_solid as Hs.
  rewrite forallb_forall in Hs. specialize (Hs p Hin).
  destruct (normalize_embedded p pre q post Hs Hq) as (a & b & Hn).
  unfold wakeWordHeard.
  assert (Js.truthy (pre +:+ q +:+ post) = true) as ->.
  { apply truthy_append, truthy_append_l.
    destruct q; [| done]. simpl in Hq. subst p. done. }
  simpl negb. cbv iota. apply existsb_exists. exists p. split; [done |].
  rewrite Hn. apply includes_append.
Qed.




(** ** The command parser *)

Lemma lower_char_space c : Js.lower_char c = " "%char → c = " "%char.
Proof.
  destruct c as [[] [] [] [] [] [] [] []]; vm_compute; intros; congruence.
Qed.

Lemma lower_char_a c : Js.lower_char c = "a"%char → Js.is_space c = false.
Proof.
  destruct c as [[] [] [] [] [] [] [] []]; vm_compute; intros; congruence.
Qed.

Lemma trimEnd_last x :
  match last_char (Js.trimEnd x) with
  | Some c => Js.is_space c = false
  | None => Js.trimEnd x = ""
  end.
Proof.
  induction x as [|a x IH]; [done |]. cbn [Js.trimEnd].
  destruct (Js.trimEnd x) as [|b y].
  - destruct (Js.is_space a) eqn:Ha; [done | exact Ha].
  - change (last_char (String a (String b y))) with (last_char (String b y)).
    by destruct (last_char (String b y)).
Qed.

Lemma trimStart_last r c :
  last_char r = Some c → Js.is_space c = false →
  last_char (Js.trimStart r) = Some c.
Proof.
  intros Hl Hc. induction r as [|a r IH]; [done |]. simpl.
  destruct (Js.is_space a) eqn:Ha; [| done].
  simpl in Hl. destruct r as [|b r]; [congruence |]. by apply IH.
Qed.

Lemma trimEnd_truthy r c :
  last_char r = Some c → Js.is_space c = false → Js.truthy (Js.trimEnd r) = true.
Proof.
  intros [x ->]%last_char_Some Hc.
  destruct (trimEnd_append x c "" Hc) as [y' ->].
  by apply truthy_append.
Qed.

Lemma trim_truthy s : Js.truthy (Js.trim s) = true → Js.truthy s = true.
Proof. by destruct s. Qed.

(** After [add ] in a trimmed command there is a name. *)
Lemma add_name_truthy s :
  Js.startsWith "add " (Js.toLowerCase (Js.trim s)) = true →
  Js.truthy (Js.trim (Js.strip_keyword "add" (Js.trim s))) = true.
Proof.
  unfold Js.trim at 1 3. pose proof (trimEnd_last (Js.trimStart s)) as Hlast.
  destruct (Js.trimEnd (Js.trimStart s)) as [|c1 [|c2 [|c3 [|c4 rest]]]];
    cbn [Js.toLowerCase Js.map Js.startsWith]; intros H;
    repeat (apply andb_prop in H as [? H]); try done.
  repeat match goal with
         | H : Ascii.eqb _ _ = true |- _ => apply Ascii.eqb_eq, eq_sym in H
         end.
  match goal with H : Js.lower_char c4 = _ |- _ => apply lower_char_space in H as -> end.
  unfold Js.strip_keyword. cbn [Js.trimStart].
  rewrite (lower_char_a c1) by done.
  cbn [Js.toLowerCase Js.map Js.startsWith String.length Js.drop].
  repeat match goal with
         | H : Js.lower_char ?c = _ |- context [Js.lower_char ?c] => rewrite H
         end.
  cbn [Ascii.eqb Bool.eqb andb Js.trimStart].
  change (Js.is_space " ") with true. cbv iota.
  destruct rest as [|b rest]; [done |].
  change (last_char (String c1 (String c2 (String c3 (String " " (String b rest))))))
    with (last_char (String b rest)) in Hlast.
  destruct (last_char (String b rest)) as [z|] eqn:Hz; [| done].
  unfold Js.trim. eapply trimEnd_truthy; [| done].
  repeat (apply trimStart_last; [| done]). done.
Qed.

Lemma processCommand_interpret s w :
  Js.truthy (Js.trim s) = true →
  processCommand (Some s) w = Spec.dispatch (Spec.interpret (Js.trim s)) w.
Proof.
  intros Ht. unfold processCommand. rewrite (trim_truthy s Ht), Ht.
  cbn [negb]. cbv iota zeta.
  unfold Spec.interpret, Spec.patterns, Spec.add_task,
    Spec.named, Spec.mark_done, Spec.delete_by_name, Spec.clear_completed,
    Spec.clear_all, Spec.list_tasks, Spec.set_sort_mode, Spec.phrase.
  cbn [Spec.first_match].
  repeat match goal with
         | |- context [any_of ?l ?x] => generalize (any_of l x); intro
         | |- context [Js.startsWith ?p ?x] => generalize (Js.startsWith p x); intro
         | |- context [Js.truthy ?x] => generalize (Js.truthy x); intro
         | |- context [Js.match_mark ?x] => generalize (Js.match_mark x); intro
         | |- context [Js.match_delete ?x] => generalize (Js.match_delete x); intro
         end.
  repeat lazymatch goal with
         | |- (if negb ?b then _ else _) _ = _ =>
             destruct b; cbn [negb default mbind option_bind]; try reflexivity
         | |- (if ?b then _ else _) _ = _ =>
             destruct b; cbn [negb default mbind option_bind]; try reflexivity
         | |- match ?o with Some _ => _ | None => _ end _ = _ =>
             destruct o; cbn [negb default mbind option_bind]; try reflexivity
         end.
Qed.

Lemma first_match_decides ps1 p ps2 cmd i :
  Forall (λ q : Spec.pattern, q cmd = None) ps1 → p cmd = Some i →
  Spec.first_match (ps1 ++ p :: ps2) cmd = Some i.
Proof.
  intros Hnone Hp. induction Hnone as [|q ps1 Hq _ IH]; simpl.
  - by rewrite Hp.
  - by rewrite Hq.
Qed.

Lemma interpret_add cmd :
  Js.startsWith "add " (Js.toLowerCase cmd) = true →
  Js.truthy (Js.trim (Js.strip_keyword "add" cmd)) = true →
  Spec.interpret cmd = AddTask (Js.trim (Js.strip_keyword "add" cmd)).
Proof.
  intros Hadd Hname. unfold Spec.interpret, Spec.patterns.
  cbn [Spec.first_match]. unfold Spec.add_task, Spec.named.
  by rewrite Hadd, Hname.
Qed.

(** C4. [processCommand] dispatches the intent of the first pattern, in
    the order AddTask, MarkDone, DeleteByName, ClearCompleted, ClearAll,
    List*, SetSortMode, that matches the trimmed command, whatever the
    later patterns would say; a command that starts with [add ] and
    contains [clear all] posts to [/add] and leaves the variables and the
    page, hence the dialog, as they were. *)
Theorem processCommand_first_match :
  (∀ s w, Js.truthy (Js.trim s) = true →
     processCommand (Some s) w = Spec.dispatch (Spec.interpret (Js.trim s)) w)
  ∧ (∀ ps1 p ps2 cmd i,
       Spec.patterns = ps1 ++ p :: ps2 →
       Forall (λ q : Spec.pattern, q cmd = None) ps1 → p cmd = Some i →
       Spec.interpret cmd = i)
  ∧ (∀ s w,
       Js.startsWith "add " (Js.toLowerCase (Js.trim s)) = true →
       Js.includes "clear all" (Js.toLowerCase (Js.trim s)) = true →
       ∃ name w',
         Js.truthy name = true
         ∧ Spec.interpret (Js.trim s) = AddTask name
         ∧ Spec.clear_all (Js.trim s) = Some ClearAll
         ∧ exec (processCommand (Some s)) w
           = (w', [EFetch POST "/add" [("task", name)]])
         ∧ vars w' = vars w ∧ dom w' = dom w
         ∧ utterances (browser w') = utterances (browser w)).
Proof.
  split_and!.
  - apply processCommand_interpret.
  - intros ps1 p ps2 cmd i Heq Hnone Hp. unfold Spec.interpret.
    rewrite Heq. by erewrite first_match_decides.
  - intros s w Hadd Hclear.
    pose proof (add_name_truthy s Hadd) as Hname.
    assert (Js.truthy (Js.trim s) = true) as Ht.
    { destruct (Js.trim s); [done | done]. }
    assert (Spec.interpret (Js.trim s)
            = AddTask (Js.trim (Js.strip_keyword "add" (Js.trim s)))) as Hi.
    { by apply interpret_add. }
    eexists _, _. split_and!; [exact Hname | exact Hi | | | | |].
    + unfold Spec.clear_all, Spec.phrase, any_of. simpl existsb.
      by rewrite Hclear.
    + unfold exec. rewrite processCommand_interpret, Hi by done.
      reflexivity.
    + done.
    + done.
    + done.
Qed.

Lemma processCommand_first_match_witness :
  processCommand (Some "mark buy milk as done") (loaded true true)
  = Spec.dispatch (MarkDone "buy milk") (loaded true true)
  ∧ Spec.interpret "remove all" = DeleteByName "all"
  ∧ ∃ w', exec (processCommand (Some " Add clear all of it ")) (loaded true true)
          = (w', [EFetch POST "/add" [("task", "clear all of it")]])
          ∧ inConfirmDialog (vars w') = false.
Proof.
  destruct processCommand_first_match as (H1 & H2 & H3). split_and!.
  - apply (H1 "mark buy milk as done"). reflexivity.
  - apply (H2 [Spec.add_task; Spec.mark_done] Spec.delete_by_name
              [Spec.clear_completed; Spec.clear_all; Spec.list_tasks;
               Spec.set_sort_mode]); [reflexivity | | reflexivity].
    repeat constructor.
  - destruct (H3 " Add clear all of it " (loaded true true))
      as (name & w' & _ & Hi & _ & He & Hv & _); [reflexivity | reflexivity |].
    exists w'. injection Hi as <-. split; [exact He |].
    rewrite Hv. reflexivity.
Defined.

Lemma trimStart_blank s : blank_string s = true → Js.trimStart s = "".
Proof.
  induction s as [|c s IH]; [done |]. simpl.
  intros [-> ?]%andb_prop. by apply IH.
Qed.

(** C10. On a command that is undefined, empty or made of white space
    only, [processCommand] returns at once: the state is the one it was
    called in and it has no effect, so that nothing is spoken, no status
    is shown, no request is sent and [sortMode] is unchanged. *)
Theorem processCommand_blank :
  ∀ cmd w,
    (cmd = None ∨ ∃ s, cmd = Some s ∧ blank_string s = true) →
    processCommand cmd w = (w, [], Normal ()).
Proof.
  intros cmd w [-> | (s & -> & Hs)]; [done |].
  unfold processCommand, Js.trim. rewrite (trimStart_blank s Hs).
  by destruct (Js.truthy s).
Qed.

Lemma processCommand_blank_witness :
  processCommand None (loaded true true) = (loaded true true, [], Normal ())
  ∧ processCommand (Some "") (loaded true true) = (loaded true true, [], Normal ())
  ∧ processCommand (Some "  ") (loaded true true) = (loaded true true, [], Normal ()).
Proof.
  split_and!.
  - apply processCommand_blank. by left.
  - apply processCommand_blank. right. by exists "".
  - apply processCommand_blank. right. by exists "  ".
Defined.

(** ** Invariants of handlers *)

Section safe.
Context (I : World → Prop) (Q : Effect → Prop).

Lemma safe_ret {A} (a : A) w : safe I Q (ret a) w.
Proof. by intros ?. Qed.

Lemma safe_throw {A} x w : safe I Q (throw (A:=A) x) w.
Proof. by intros ?. Qed.

Lemma safe_read {A} (f : World → A) w : safe I Q (read f) w.
Proof. by intros ?. Qed.

Lemma safe_emit e w : Q e → safe I Q (emit e) w.
Proof. intros ? ?. split; [done |]. by constructor. Qed.

Lemma safe_write f w : (I w → I (f w)) → safe I Q (write f) w.
Proof. intros Hf Hw. split; [by apply Hf | constructor]. Qed.

Lemma safe_bind {A B} (m : Js A) (k : A → Js B) w :
  safe I Q m w → (∀ a w1, safe I Q (k a) w1) → safe I Q (bind m k) w.
Proof.
  intros Hm Hk Hw. destruct (Hm Hw) as [H1 H2]. unfold bind.
  destruct (m w) as [[w1 e1] [a|x]]; simpl in *; [| done].
  specialize (Hk a w1 H1). destruct (k a w1) as [[w2 e2] r]; simpl in *.
  split; [tauto |]. apply Forall_app; tauto.
Qed.

Lemma safe_bind_read {A B} (f : World → A) (k : A → Js B) w :
  safe I Q (k (f w)) w → safe I Q (bind (read f) k) w.
Proof.
  intros Hk Hw. specialize (Hk Hw). unfold bind, read.
  by destruct (k (f w) w) as [[w2 e2] r].
Qed.

Lemma safe_bind_var {A B} (f : Vars → A) (k : A → Js B) w :
  safe I Q (k (f (vars w))) w → safe I Q (bind (var f) k) w.
Proof. apply (safe_bind_read (λ w, f (vars w))). Qed.

Lemma safe_try_catch {A} (m h : Js A) w :
  safe I Q m w → (∀ w1, safe I Q h w1) → safe I Q (try_catch m h) w.
Proof.
  intros Hm Hh Hw. destruct (Hm Hw) as [H1 H2]. unfold try_catch.
  destruct (m w) as [[w1 e1] [a|x]]; simpl in *; [done |].
  specialize (Hh w1 H1). destruct (h w1) as [[w2 e2] r]; simpl in *.
  split; [tauto |]. apply Forall_app; tauto.
Qed.

Lemma safe_exec (m : Js unit) w w' effs :
  safe I Q m w → I w → exec m w = (w', effs) → I w' ∧ Forall Q effs.
Proof. unfold exec. intros Hm Hw Heq. destruct (Hm Hw). by rewrite Heq in *. Qed.

Lemma establishes_safe {A} (m : Js A) w :
  I w → safe I Q m w → establishes I Q m w.
Proof. intros Hw Hm. by apply Hm. Qed.

Lemma establishes_bind_write {B} f (k : () → Js B) w :
  establishes I Q (k ()) (f w) → establishes I Q (bind (write f) k) w.
Proof.
  unfold establishes, bind, write.
  by destruct (k () (f w)) as [[w2 e2] r].
Qed.

Lemma establishes_bind_read {A B} (f : World → A) (k : A → Js B) w :
  establishes I Q (k (f w)) w → establishes I Q (bind (read f) k) w.
Proof.
  unfold establishes, bind, read.
  by destruct (k (f w) w) as [[w2 e2] r].
Qed.

Lemma establishes_bind_emit {B} e (k : () → Js B) w :
  Q e → establishes I Q (k ()) w → establishes I Q (bind (emit e) k) w.
Proof.
  unfold establishes, bind, emit.
  destruct (k () w) as [[w2 e2] r]. simpl. intros ? [? ?].
  split; [done |]. by constructor.
Qed.

(** Sequencing through an intermediate assertion [J]. *)
Lemma establishes_bind {A B} (J : World → Prop) (m : Js A) (k : A → Js B) w :
  establishes J Q m w →
  (∀ w1, J w1 → I w1) →
  (∀ a w1, J w1 → establishes I Q (k a) w1) →
  establishes I Q (bind m k) w.
Proof.
  unfold establishes, bind. intros [HJ HQ] HJI Hk.
  destruct (m w) as [[w1 e1] [a|x]]; simpl in *; [| by auto].
  specialize (Hk a w1 HJ). destruct (k a w1) as [[w2 e2] r]; simpl in *.
  split; [tauto |]. apply Forall_app; tauto.
Qed.

Lemma establishes_bind_ret {A B} (a : A) (k : A → Js B) w :
  establishes I Q (k a) w → establishes I Q (bind (ret a) k) w.
Proof.
  unfold establishes, bind, ret.
  by destruct (k a w) as [[w2 e2] r].
Qed.

Lemma establishes_bind_assoc {A B C} (m : Js A) (k1 : A → Js B)
    (k2 : B → Js C) w :
  establishes I Q (bind m (λ a, bind (k1 a) k2)) w →
  establishes I Q (bind (bind m k1) k2) w.
Proof.
  unfold establishes, bind.
  destruct (m w) as [[w1 e1] [a|x]]; simpl; [| done].
  destruct (k1 a w1) as [[w2 e2] [b|y]]; simpl; [| done].
  destruct (k2 b w2) as [[w3 e3] r]; simpl.
  by rewrite (assoc_L (++)).
Qed.

End safe.

(** Symbolic execution of a handler: [leaf] closes the side conditions
    on assignments and effects; the functions of the script are unfolded
    on the way, unless a lemma of the hint base [safe] covers them. *)
Create HintDb safe discriminated.
#[export] Hint Resolve safe_ret safe_throw safe_read : safe.

Ltac safe_step leaf :=
  lazymatch goal with
  | |- safe _ _ (bind (read _) _) _ => apply safe_bind_read
  | |- safe _ _ (bind (var _) _) _ => apply safe_bind_var
  | |- safe _ _ (bind _ _) _ => apply safe_bind; [| intros ? ?]
  | |- safe _ _ (try_catch _ _) _ => apply safe_try_catch; [| intros ?]
  | |- safe _ _ (var _) _ => apply safe_read
  | |- safe _ _ (emit _) _ => apply safe_emit; leaf
  | |- safe _ _ (write _) _ => apply safe_write; leaf
  | |- safe _ _ (assign _) _ => apply safe_write; leaf
  | |- safe _ _ (match ?x with _ => _ end) _ => destruct x eqn:?
  | |- safe _ _ (let _ := _ in _) _ => cbv zeta
  | |- safe _ _ ?m _ => let h := head_of m in unfold h
  end.

(** Evaluation of the straight-line start of a function, up to the
    first call that is left to an invariant. *)
Ltac establish_step :=
  lazymatch goal with
  | |- establishes _ _ (bind (bind _ _) _) _ => apply establishes_bind_assoc
  | |- establishes _ _ (bind (read _) _) _ => apply establishes_bind_read
  | |- establishes _ _ (bind (var _) _) _ => apply establishes_bind_read
  | |- establishes _ _ (bind (write _) _) _ => apply establishes_bind_write
  | |- establishes _ _ (bind (assign _) _) _ => apply establishes_bind_write
  | |- establishes _ _ (bind (emit _) _) _ => apply establishes_bind_emit; [done |]
  | |- establishes _ _ (bind (ret _) _) _ => apply establishes_bind_ret
  | |- establishes _ _ (bind (match ?x with _ => _ end) _) _ => destruct x eqn:?
  end.

(** [absurd] closes the branches that the invariant excludes. *)
Ltac safe_run leaf absurd :=
  repeat (first [ solve [absurd] | solve [eauto with safe] | safe_step leaf ]).

(** ** The command session and the wake prompt *)

Lemma others_never_start_command ev w w' effs :
  handle ev w = Some (w', effs) →
  (∀ u q, ev = EvUtteranceEnd → utterances (browser w) = u :: q →
          u_onend u ≠ Some CbStartCommand) →
  Forall not_command_start effs.
Proof.
  intros H Hu.
  cut (True ∧ Forall not_command_start effs); [tauto |].
  destruct ev; simpl in H; repeat case_match; simplify_eq;
    try match goal with c : callback |- _ => destruct c end;
    try solve [eapply (safe_exec (λ _, True)); [| done | done];
         safe_run ltac:(try done) ltac:(fail)].
  all: by edestruct Hu.
Qed.

(** C2. The handler that detects the wake word queues the prompt and
    starts no command session; whenever a handler calls [start()] on the
    command recognizer, the event is the end of an utterance that carries
    the wake flow's callback, that utterance has left the queue, and the
    callback's ding and status come before the [start()]. *)
Theorem command_starts_only_after_prompt :
  (∀ w i t w' effs,
     handle (EvResult Wake i t) w = Some (w', effs) →
     wake_detected t w = true →
     Forall not_command_start effs
     ∧ command_sessions (browser w') = command_sessions (browser w)
     ∧ (has_synth (browser w) = true →
        utterances (browser w')
        = utterances (browser w) ++ [Utterance "Yes?" (Some CbStartCommand)]))
  ∧ (∀ ev w w' effs j,
       handle ev w = Some (w', effs) →
       EStart Command j ∈ effs →
       ev = EvUtteranceEnd
       ∧ (∃ u, utterances (browser w) = u :: utterances (browser w')
               ∧ u_onend u = Some CbStartCommand)
       ∧ effs = [EDing; EStatus "Speak now!" "green"; EStart Command j]).
Proof.
  split.
  - intros w i t w' effs H Hd. split.
    { eapply others_never_start_command; [done | done]. }
    simpl in H. case_match; [| done]. simplify_eq.
    revert H. unfold wakeRecognition_onresult, stopWakeRecognition. js_unfold.
    unfold wake_detected in Hd. rewrite Hd. destruct w as [v d b].
    js_eval; intros [= <- <-]; simpl; done.
  - intros ev w w' effs j H Hin.
    assert (¬ Forall not_command_start effs) as Hno.
    { rewrite Forall_forall. intros Hall. by apply Hall in Hin. }
    destruct (utterances (browser w)) as [|u q] eqn:Hq;
      [| destruct (u_onend u) as [[]|] eqn:Hu].
    2: { destruct ev; try (exfalso; apply Hno;
           by eapply others_never_start_command).
         simpl in H. rewrite Hq, Hu in H. simplify_eq. revert H Hin.
         unfold call, wakePrompt_onend. destruct w as [v d b].
         js_eval; intros [= <- <-]; simpl in *; simplify_eq;
           intros Hin; elem_cases; split_and?; eauto. }
    all: exfalso; apply Hno; eapply others_never_start_command; [done |];
      intros; simplify_eq; congruence.
Qed.

Lemma command_starts_only_after_prompt_witness :
  Forall not_command_start
    (exec (wakeRecognition_onresult "Hey, to do!") (loaded true true)).2
  ∧ utterances
      (browser (exec (wakeRecognition_onresult "Hey, to do!") (loaded true true)).1)
    = [Utterance "Yes?" (Some CbStartCommand)]
  ∧ handle EvUtteranceEnd
      (exec (wakeRecognition_onresult "Hey, to do!") (loaded true true)).1
    = Some ((exec wakePrompt_onend
               (on_browser (set_utterances [])
                  (exec (wakeRecognition_onresult "Hey, to do!")
                     (loaded true true)).1)).1,
            [EDing; EStatus "Speak now!" "green"; EStart Command 0]).
Proof.
  destruct command_starts_only_after_prompt as [H1 H2].
  assert (handle (EvResult Wake 0 "Hey, to do!") (loaded true true)
          = Some ((exec (wakeRecognition_onresult "Hey, to do!") (loaded true true)).1,
                  (exec (wakeRecognition_onresult "Hey, to do!") (loaded true true)).2))
    as E1 by (vm_compute; reflexivity).
  destruct (H1 _ _ _ _ _ E1) as (Hq & _ & Hu); [vm_compute; reflexivity |].
  assert (handle EvUtteranceEnd
            (exec (wakeRecognition_onresult "Hey, to do!") (loaded true true)).1
          = Some ((exec wakePrompt_onend
                     (on_browser (set_utterances [])
                        (exec (wakeRecognition_onresult "Hey, to do!")
                           (loaded true true)).1)).1,
                  (exec wakePrompt_onend
                     (on_browser (set_utterances [])
                        (exec (wakeRecognition_onresult "Hey, to do!")
                           (loaded true true)).1)).2))
    as E2 by (vm_compute; reflexivity).
  destruct (H2 _ _ _ _ 0 E2) as (_ & _ & He).
  { eval_elem. }
  split_and!.
  - exact Hq.
  - etrans; [apply Hu; vm_compute; reflexivity |]. vm_compute. reflexivity.
  - rewrite E2, He. reflexivity.
Defined.

(** ** The confirmation session and the dialog prompt *)

(** With speech synthesis, [openConfirmDialog] starts nothing: it leaves
    the prompt in the queue with [startConfirmRecognition] as its
    completion callback. *)
Lemma openConfirmDialog_queues_prompt w message onConfirm onCancel voicePrompt :
  has_synth (browser w) = true →
  Forall (λ e, is_start e = false)
    (exec (openConfirmDialog message onConfirm onCancel voicePrompt) w).2
  ∧ confirm_sessions
      (browser (exec (openConfirmDialog message onConfirm onCancel voicePrompt) w).1)
    = confirm_sessions (browser w)
  ∧ utterances
      (browser (exec (openConfirmDialog message onConfirm onCancel voicePrompt) w).1)
    = [Utterance (default message (truthy_field voicePrompt)) (Some CbStartConfirm)]
  ∧ ESpeak (default message (truthy_field voicePrompt))
    ∈ (exec (openConfirmDialog message onConfirm onCancel voicePrompt) w).2.
Proof.
  intros Hs. unfold openConfirmDialog, initConfirmDialog, stopWakeRecognition,
    stopCommandRecognition, speak.
  destruct w as [v d [sr sy ws cs fs us ts rs]]. simpl in Hs. subst sy.
  destruct (truthy_field voicePrompt); js_eval; split_and!; try done;
    rewrite ?elem_of_app, ?elem_of_cons; try tauto; repeat constructor.
Qed.

Ltac count_leaf :=
  try done;
  unfold confirm_count;
  try (intros [? ?]; split; simpl; rewrite ?length_insert; done).

Ltac count_absurd :=
  unfold confirm_count; intros [? ?];
  repeat match goal with
         | H : negb _ = true |- _ => apply negb_true_iff in H
         end;
  congruence.

(** With speech synthesis, a confirmation recognizer is created only
    when an utterance that carries [startConfirmRecognition] ends. *)
Lemma confirm_recognizer_created_after_utterance ev w w' effs :
  has_synth (browser w) = true →
  handle ev w = Some (w', effs) →
  length (confirm_sessions (browser w')) ≠ length (confirm_sessions (browser w)) →
  ev = EvUtteranceEnd
  ∧ ∃ u, utterances (browser w) = u :: utterances (browser w')
         ∧ u_onend u = Some CbStartConfirm.
Proof.
  intros Hs H Hlen.
  set (n := length (confirm_sessions (browser w))) in *.
  assert (confirm_count n w) as Hw by done.
  destruct ev; simpl in H; repeat case_match; simplify_eq;
    try match goal with c : callback |- _ => destruct c end;
    try solve [exfalso; apply Hlen;
         eapply (safe_exec (confirm_count n) (λ _, True)) in H as [[_ ?] _];
         [done | | done];
         repeat match goal with k : kind |- _ => destruct k end;
         safe_run count_leaf count_absurd].
  split; [done |]. eexists. split; [| done]. f_equal.
  revert H. unfold call, startConfirmRecognition, confirmRecognition_start.
  destruct w as [v d b]. js_eval; by intros [= <- <-].
Qed.

Lemma lookup_snoc {A} (l : list A) y : (l ++ [y]) !! length l = Some y.
Proof. induction l; done. Qed.

Lemma insert_snoc {A} (l : list A) x y : <[length l:=x]> (l ++ [y]) = l ++ [x].
Proof. induction l; simpl; [done | by f_equal]. Qed.

(** Evaluation through the creation of a recognizer. *)
Ltac js_eval_new :=
  js_unfold; simpl;
  repeat first
    [ rewrite lookup_snoc
    | rewrite insert_snoc
    | progress simpl
    | js_case; simplify_eq ].

(** Where recognition is supported, [startConfirmRecognition] creates a
    recognizer, makes it the current one and starts it. *)
Lemma startConfirmRecognition_starts w :
  has_recognition (browser w) = true →
  let i := length (confirm_sessions (browser w)) in
  exec startConfirmRecognition w
  = (on_vars (set_confirmRecognition (Some i))
       (on_browser (set_sessions Confirm (confirm_sessions (browser w) ++ [Capturing])) w),
     [EStart Confirm i]).
Proof.
  intros Hr. unfold startConfirmRecognition, confirmRecognition_start.
  destruct w as [v d [sr sy ws cs fs us ts rs]]. simpl in Hr. subst sr.
  js_eval_new. done.
Qed.

(** C3, on the earlier client.  A click on Clear All in the page as
    loaded: when [openConfirmDialog] returns, the prompt has just entered
    the synthesizer's queue and the confirmation session is already
    capturing. *)
Theorem script3_confirmation_listens_during_prompt :
  (exec Script3.clearBtn_click (loaded true true)).2
  = [EStop Wake 0; ECancel;
     ESpeak "Warning. This will delete all of your tasks. Are you sure?";
     EStart Confirm 0]
  ∧ utterances (browser (exec Script3.clearBtn_click (loaded true true)).1)
    = [Utterance "Warning. This will delete all of your tasks. Are you sure?" None]
  ∧ confirm_sessions (browser (exec Script3.clearBtn_click (loaded true true)).1)
    = [Capturing].
Proof. vm_compute. done. Qed.

(** ** Resolution of the dialog *)

Lemma handleConfirmYes_accepts w :
  accepted w (exec handleConfirmYes w).1 (exec handleConfirmYes w).2
  ∧ filter (λ e, is_fetch e = true) (exec handleConfirmYes w).2
    = match confirmOnConfirm (vars w) with
      | Some (ActSend path) => [EFetch POST path []]
      | _ => []
      end.
Proof.
  unfold accepted, handleConfirmYes, closeConfirmDialog, run_action,
    sendCommandJson.
  destruct w as [v d b].
  js_eval; split_and!; try done; intros; simplify_eq;
    rewrite ?elem_of_app, ?elem_of_cons; tauto.
Qed.

Lemma handleConfirmCancel_declines w :
  declined w (exec handleConfirmCancel w).1 (exec handleConfirmCancel w).2.
Proof.
  unfold declined, handleConfirmCancel, closeConfirmDialog, run_action,
    sendCommandJson, speak.
  destruct w as [v d [sr sy ws cs fs us ts rs]].
  js_eval; split_and!; try done; intros; simplify_eq;
    rewrite ?elem_of_app, ?elem_of_cons; try tauto;
    try (destruct_or?; simplify_eq); repeat constructor.
Qed.

Lemma script3_speak_is_speak text : Script3.speak text = speak text None.
Proof. reflexivity. Qed.

(** The re-prompt of [script.js], with speech synthesis: the dialog is
    left as it is and the prompt waits in the queue with
    [startConfirmRecognition] as its callback. *)
Lemma reprompt_queues_restart w :
  has_synth (browser w) = true →
  exec (speak "I did not catch that. Can you repeat?" (Some CbStartConfirm)) w
  = (on_browser (set_utterances
       [Utterance "I did not catch that. Can you repeat?" (Some CbStartConfirm)]) w,
     [ECancel; ESpeak "I did not catch that. Can you repeat?"]).
Proof.
  intros Hs. unfold speak.
  destruct w as [v d [sr sy ws cs fs us ts rs]]. simpl in Hs. subst sy.
  by js_eval.
Qed.

(** While the dialog is open, the end of the current confirmation
    session starts it again. *)
Lemma confirm_session_restarts_on_end w i :
  inConfirmDialog (vars w) = true →
  confirmRecognition (vars w) = Some i →
  live (confirm_sessions (browser w) !! i) = true →
  handle (EvEnd Confirm i) w
  = Some (on_browser (set_sessions Confirm
            (<[i:=Capturing]> (confirm_sessions (browser w)))) w,
          [EStart Confirm i]).
Proof.
  intros Hd Hr Hl. unfold handle. simpl sessions. rewrite Hl.
  unfold onend, confirmRecognition_onend, confirmRecognition_start.
  destruct w as [v d [sr sy ws cs fs us ts rs]]. simpl in *.
  js_unfold. simpl. rewrite Hd. simpl. rewrite Hr. simpl.
  assert (i < length fs) as Hi.
  { apply lookup_lt_is_Some. destruct (fs !! i); [done | discriminate]. }
  rewrite list_lookup_insert_eq by done. simpl.
  by rewrite list_insert_insert_eq.
Qed.

(** C7, as the script has it.  What the confirmation session hears is
    lower-cased and trimmed.  It resolves to accept when it contains
    [confirm], [yeah] or [sure] or is exactly [yes]; otherwise it resolves
    to decline when it contains [cancel] or [no]; otherwise the dialog is
    left open and the re-prompt is spoken.  The session is started again
    when the re-prompt of [script.js] has been spoken, and in both clients
    whenever the current session ends while the dialog is open. *)
Theorem confirmation_reply_resolution w heard :
  let t := Js.trim (Js.toLowerCase heard) in
  let r := exec (confirmRecognition_onresult heard) w in
  let r3 := exec (Script3.confirmRecognition_onresult heard) w in
  (accept_phrase t = true → accepted w r.1 r.2 ∧ accepted w r3.1 r3.2)
  ∧ (accept_phrase t = false → decline_phrase t = true →
     declined w r.1 r.2 ∧ declined w r3.1 r3.2)
  ∧ (accept_phrase t = false → decline_phrase t = false →
     has_synth (browser w) = true →
     r = (on_browser (set_utterances
            [Utterance "I did not catch that. Can you repeat?"
               (Some CbStartConfirm)]) w,
          [ECancel; ESpeak "I did not catch that. Can you repeat?"])
     ∧ r3 = (on_browser (set_utterances
               [Utterance "I didn't catch that. Can you repeat?" None]) w,
             [ECancel; ESpeak "I didn't catch that. Can you repeat?"])
     ∧ (has_recognition (browser w) = true →
        handle EvUtteranceEnd r.1
        = Some (on_vars (set_confirmRecognition
                  (Some (length (confirm_sessions (browser w)))))
                  (on_browser (set_sessions Confirm
                     (confirm_sessions (browser w) ++ [Capturing]))
                     (on_browser (set_utterances []) w)),
                [EStart Confirm (length (confirm_sessions (browser w)))])))
  ∧ (∀ i, inConfirmDialog (vars w) = true →
          confirmRecognition (vars w) = Some i →
          live (confirm_sessions (browser w) !! i) = true →
          handle (EvEnd Confirm i) w
          = Some (on_browser (set_sessions Confirm
                    (<[i:=Capturing]> (confirm_sessions (browser w)))) w,
                  [EStart Confirm i])).
Proof.
  intros t r r3. subst r r3.
  unfold confirmRecognition_onresult, Script3.confirmRecognition_onresult.
  fold t. fold (accept_phrase t). fold (decline_phrase t).
  split_and!.
  - intros ->. split; apply handleConfirmYes_accepts.
  - intros -> ->. split; apply handleConfirmCancel_declines.
  - intros -> -> Hs. rewrite script3_speak_is_speak.
    rewrite reprompt_queues_restart by done. split_and!; [done | |].
    + unfold speak. destruct w as [v d [sr sy ws cs fs us ts rs]].
      simpl in Hs. subst sy. by js_eval.
    + intros Hr. destruct w as [v d [sr sy ws cs fs us ts rs]].
      simpl in Hs, Hr. subst sr sy. simpl.
      unfold startConfirmRecognition, confirmRecognition_start.
      by js_eval_new.
  - apply confirm_session_restarts_on_end.
Qed.

(** C7 as worded fails: [yes please] contains [yes] and is not taken as
    an acceptance (the dialog stays open and nothing is posted), and
    [not sure] contains [no] and is taken as an acceptance. *)
Lemma reply_containing_yes_not_accepted :
  ∃ w0 e0 w1 e1 w2 e2,
    run [EvClearClick; EvUtteranceEnd] (loaded true true) = Some (w0, e0)
    ∧ Js.includes "yes" (Js.trim (Js.toLowerCase "yes please")) = true
    ∧ handle (EvResult Confirm 0 "yes please") w0 = Some (w1, e1)
    ∧ inConfirmDialog (vars w1) = true
    ∧ e1 = [ECancel; ESpeak "I did not catch that. Can you repeat?"]
    ∧ ¬ accepted w0 w1 e1
    ∧ Js.includes "no" (Js.trim (Js.toLowerCase "not sure")) = true
    ∧ handle (EvResult Confirm 0 "not sure") w0 = Some (w2, e2)
    ∧ EFetch POST "/clear" [] ∈ e2
    ∧ ¬ declined w0 w2 e2.
Proof.
  eexists _, _, _, _, _, _.
  split; [vm_compute; reflexivity |].
  split; [vm_compute; reflexivity |].
  split; [vm_compute; reflexivity |].
  split; [vm_compute; reflexivity |].
  split; [vm_compute; reflexivity |].
  split; [intros [H _]; vm_compute in H; discriminate |].
  split; [vm_compute; reflexivity |].
  split; [vm_compute; reflexivity |].
  split; [rewrite !elem_of_cons; tauto |].
  intros (_ & _ & _ & _ & H).
  specialize (H (or_introl eq_refl)).
  rewrite Forall_forall in H.
  specialize (H (EFetch POST "/clear" [])). simpl in H.
  assert (true = false); [| discriminate].
  apply H. rewrite !elem_of_cons. tauto.
Qed.

Lemma confirmation_reply_resolution_witness :
  accepted (loaded true true)
    (exec (confirmRecognition_onresult " Yes ") (loaded true true)).1
    (exec (confirmRecognition_onresult " Yes ") (loaded true true)).2
  ∧ declined (loaded true true)
      (exec (confirmRecognition_onresult "I don't know") (loaded true true)).1
      (exec (confirmRecognition_onresult "I don't know") (loaded true true)).2
  ∧ exec (confirmRecognition_onresult "maybe") (loaded true true)
    = (on_browser (set_utterances
         [Utterance "I did not catch that. Can you repeat?"
            (Some CbStartConfirm)]) (loaded true true),
       [ECancel; ESpeak "I did not catch that. Can you repeat?"]).
Proof.
  split_and!.
  - apply (confirmation_reply_resolution (loaded true true) " Yes "). reflexivity.
  - apply (confirmation_reply_resolution (loaded true true) "I don't know");
      reflexivity.
  - apply (confirmation_reply_resolution (loaded true true) "maybe");
      reflexivity.
Defined.

(** ** Clear all, by voice *)

Lemma processCommand_clear_all :
  processCommand (Some "clear all") = askForClearAllConfirmation.
Proof. reflexivity. Qed.

Ltac dialog_leaf :=
  try done;
  unfold dialog_open;
  try (intros (? & ? & ? & ? & ? & ? & ?); split_and!; done).

(** What [openConfirmDialog] leaves in the variables and on the page;
    it makes no request. *)
Lemma openConfirmDialog_opens w message onConfirm onCancel voicePrompt :
  establishes
    (dialog_open message onConfirm onCancel
       (has_synth (browser w)) (has_recognition (browser w)))
    not_fetch
    (openConfirmDialog message onConfirm onCancel voicePrompt) w.
Proof.
  unfold openConfirmDialog, initConfirmDialog.
  repeat establish_step.
  all: apply establishes_safe; [by destruct w |].
  all: safe_run dialog_leaf fail.
Qed.

Lemma exec_write_bind f (m : Js ()) w :
  exec (write f ;; m) w = exec m (f w).
Proof. unfold exec, bind, write. by destruct (m (f w)) as [[? ?] ?]. Qed.

(** C6. The command [clear all] opens the dialog and queues a prompt that
    contains [Warning], without any request; once the prompt is over the
    confirmation session captures; on [yes] the dialog closes and the one
    request made is [POST /clear]; on [no] the dialog closes, the
    cancellation is spoken and no request is made. *)
Theorem clear_all_by_voice w :
  has_synth (browser w) = true → has_recognition (browser w) = true →
  ∃ w1 e1 w2 i,
    exec (processCommand (Some "clear all")) w = (w1, e1)
    ∧ inConfirmDialog (vars w1) = true
    ∧ confirmOverlay (dom w1) = Some true
    ∧ (∃ prompt,
         utterances (browser w1) = [Utterance prompt (Some CbStartConfirm)]
         ∧ ESpeak prompt ∈ e1
         ∧ Js.includes "Warning" prompt = true)
    ∧ Forall (λ e, is_fetch e = false) e1
    ∧ Forall (λ e, is_start e = false) e1
    ∧ handle EvUtteranceEnd w1 = Some (w2, [EStart Confirm i])
    ∧ confirmRecognition (vars w2) = Some i
    ∧ confirm_sessions (browser w2) !! i = Some Capturing
    ∧ (∃ w3 e3,
         handle (EvResult Confirm i "yes") w2 = Some (w3, e3)
         ∧ accepted w2 w3 e3
         ∧ filter (λ e, is_fetch e = true) e3 = [EFetch POST "/clear" []])
    ∧ (∃ w4 e4,
         handle (EvResult Confirm i "no") w2 = Some (w4, e4)
         ∧ declined w2 w4 e4
         ∧ ESpeak "Okay, I cancelled that action." ∈ e4
         ∧ Forall (λ e, is_fetch e = false) e4).
Proof.
  intros Hs Hr. rewrite processCommand_clear_all.
  unfold askForClearAllConfirmation.
  set (message := "This will delete ALL tasks and cannot be undone. Are you sure?").
  set (prompt := "Warning. This will delete all of your tasks. Are you sure?").
  pose proof (openConfirmDialog_queues_prompt w message (ActSend "/clear")
                (Some ActNothing) (Some prompt) Hs) as (Hstart & Hcs & Hq & Hsp).
  pose proof (openConfirmDialog_opens w message (ActSend "/clear")
                (Some ActNothing) (Some prompt))
    as [(Hd & Hyes & Hno & Hov & _ & Hs1 & Hr1) Hnf].
  destruct (exec (openConfirmDialog message (ActSend "/clear")
                    (Some ActNothing) (Some prompt)) w) as [w1 e1] eqn:E1.
  unfold exec in E1. rewrite E1 in *.
  cbn [fst snd] in *. rewrite Hs in Hs1. rewrite Hr in Hr1.
  set (w1' := on_browser (set_utterances []) w1).
  assert (has_recognition (browser w1') = true) as Hr1' by (by destruct w1).
  pose proof (startConfirmRecognition_starts w1' Hr1') as Hst.
  cbv zeta in Hst.
  set (i := length (confirm_sessions (browser w1'))) in *.
  set (w2 := on_vars (set_confirmRecognition (Some i))
               (on_browser (set_sessions Confirm
                  (confirm_sessions (browser w1') ++ [Capturing])) w1')) in *.
  assert (confirm_sessions (browser w2) !! i = Some Capturing) as Hcap.
  { subst w2 i. destruct w1' as [? ? []]. simpl. apply lookup_snoc. }
  assert (confirmOnConfirm (vars w2) = Some (ActSend "/clear")) as Hyes2.
  { subst w2 w1'. by destruct w1. }
  assert (confirmOnCancel (vars w2) = Some ActNothing) as Hno2.
  { subst w2 w1'. by destruct w1. }
  assert (has_synth (browser w2) = true) as Hs2.
  { subst w2 w1'. by destruct w1 as [? ? []]. }
  assert (confirmRecognition (vars w2) = Some i) as Hi.
  { subst w2. by destruct w1'. }
  clearbody w2 i.
  exists w1, e1, w2, i. split_and!; try done.
  - exists prompt. split_and!; done.
  - unfold handle. rewrite Hq. cbn [u_onend call].
    rewrite exec_write_bind. fold w1'. by rewrite Hst.
  - exists (exec handleConfirmYes w2).1, (exec handleConfirmYes w2).2.
    split_and!.
    + unfold handle. cbn [sessions]. rewrite Hcap. cbn [live onresult].
      change (confirmRecognition_onresult "yes") with handleConfirmYes.
      by destruct (exec handleConfirmYes w2).
    + apply handleConfirmYes_accepts.
    + rewrite (proj2 (handleConfirmYes_accepts w2)). by rewrite Hyes2.
  - pose proof (handleConfirmCancel_declines w2) as Hdec.
    exists (exec handleConfirmCancel w2).1, (exec handleConfirmCancel w2).2.
    split_and!.
    + unfold handle. cbn [sessions]. rewrite Hcap. cbn [live onresult].
      change (confirmRecognition_onresult "no") with handleConfirmCancel.
      by destruct (exec handleConfirmCancel w2).
    + exact Hdec.
    + destruct Hdec as (_ & _ & Hsay & _). by apply Hsay.
    + destruct Hdec as (_ & _ & _ & _ & Hnone). apply Hnone. by left.
Qed.

Lemma clear_all_by_voice_witness :
  has_synth (browser (loaded true true)) = true
  ∧ has_recognition (browser (loaded true true)) = true
  ∧ ∃ w1 e1 w2 i,
      exec (processCommand (Some "clear all")) (loaded true true) = (w1, e1)
      ∧ Forall (λ e, is_fetch e = false) e1
      ∧ handle EvUtteranceEnd w1 = Some (w2, [EStart Confirm i])
      ∧ (∃ w3 e3,
           handle (EvResult Confirm i "yes") w2 = Some (w3, e3)
           ∧ filter (λ e, is_fetch e = true) e3 = [EFetch POST "/clear" []])
      ∧ (∃ w4 e4,
           handle (EvResult Confirm i "no") w2 = Some (w4, e4)
           ∧ Forall (λ e, is_fetch e = false) e4).
Proof.
  split; [reflexivity |]. split; [reflexivity |].
  destruct (clear_all_by_voice (loaded true true) eq_refl eq_refl)
    as (w1 & e1 & w2 & i & E1 & _ & _ & _ & Hf & _ & E2 & _ & _ & Hyes & Hno).
  destruct Hyes as (w3 & e3 & E3 & _ & F3).
  destruct Hno as (w4 & e4 & E4 & _ & _ & F4).
  exists w1, e1, w2, i. split_and!; [exact E1 | exact Hf | exact E2 | |].
  - exists w3, e3. split; [exact E3 | exact F3].
  - exists w4, e4. split; [exact E4 | exact F4].
Defined.

(** ** Replies to requests *)



(** ** One session at a time *)

(** C1.  The wake session ends by itself, which arms the 500 ms timer of
    its [onend]; Clear All is clicked before the timer fires; the timer
    starts the wake session although the dialog is open; the prompt ends
    and the confirmation session starts.  Two sessions capture. *)
Theorem wake_and_confirmation_capture_together :
  capturing (loaded true true) = 1
  ∧ ∃ w effs,
      run [EvEnd Wake 0; EvClearClick; EvTimeout; EvUtteranceEnd] (loaded true true)
      = Some (w, effs)
      ∧ effs = [ETimeout 500; ECancel;
                ESpeak "Warning. This will delete all of your tasks. Are you sure?";
                EStart Wake 0; EStart Confirm 0]
      ∧ inConfirmDialog (vars w) = true
      ∧ wakeRunning (vars w) = true
      ∧ wake_sessions (browser w) = [Capturing]
      ∧ confirm_sessions (browser w) = [Capturing]
      ∧ capturing w = 2.
Proof.
  split; [reflexivity |]. eexists _, _.
  split; [vm_compute; reflexivity |]. by vm_compute.
Qed.

(** A second way to the same state of affairs: an error of the command
    session (its [end] event is still to come) restarts the wake session
    at once. *)
Lemma wake_restarts_on_command_error :
  ∃ w effs,
    run [EvResult Wake 0 "hey to do"; EvEnd Wake 0; EvUtteranceEnd;
         EvError Command 0] (loaded true true)
    = Some (w, effs)
    ∧ wake_sessions (browser w) = [Capturing]
    ∧ command_sessions (browser w) = [Capturing]
    ∧ capturing w = 2.
Proof.
  eexists _, _. split; [vm_compute; reflexivity |]. by vm_compute.
Qed.

(** ** Muting *)


Lemma count_capturing_inactive l :
  Forall (λ s, s = Inactive) l → count_capturing l = 0.
Proof.
  unfold count_capturing. induction 1 as [|s l -> _ IH]; [done |].
  by rewrite filter_cons_False.
Qed.











(** * Further properties *)

(** ** More on strings *)

Section more_strings.
Implicit Types (s p x y : string) (c : ascii).

Lemma lower_char_is_space c : Js.is_space (Js.lower_char c) = Js.is_space c.
Proof. destruct c as [[] [] [] [] [] [] [] []]; vm_compute; reflexivity. Qed.

Lemma lower_char_is_line_terminator c :
  Js.is_line_terminator (Js.lower_char c) = Js.is_line_terminator c.
Proof. destruct c as [[] [] [] [] [] [] [] []]; vm_compute; reflexivity. Qed.

Lemma lower_char_idemp c : Js.lower_char (Js.lower_char c) = Js.lower_char c.
Proof. destruct c as [[] [] [] [] [] [] [] []]; vm_compute; reflexivity. Qed.

Lemma toLowerCase_idemp s : Js.toLowerCase (Js.toLowerCase s) = Js.toLowerCase s.
Proof.
  unfold Js.toLowerCase.
  induction s as [|c s IH]; [done |]. simpl. by rewrite lower_char_idemp, IH.
Qed.

Lemma trimStart_toLowerCase s :
  Js.trimStart (Js.toLowerCase s) = Js.toLowerCase (Js.trimStart s).
Proof.
  unfold Js.toLowerCase.
  induction s as [|c s IH]; [done |]. simpl.
  rewrite lower_char_is_space. by destruct (Js.is_space c).
Qed.

Lemma trimEnd_toLowerCase s :
  Js.trimEnd (Js.toLowerCase s) = Js.toLowerCase (Js.trimEnd s).
Proof.
  unfold Js.toLowerCase.
  induction s as [|c s IH]; [done |]. simpl. rewrite IH, lower_char_is_space.
  destruct (Js.trimEnd s); simpl; [by destruct (Js.is_space c) | done].
Qed.

Lemma trim_toLowerCase s : Js.trim (Js.toLowerCase s) = Js.toLowerCase (Js.trim s).
Proof. unfold Js.trim. by rewrite trimStart_toLowerCase, trimEnd_toLowerCase. Qed.

(** A text that starts and ends with something other than white space. *)
Lemma trimStart_first s c :
  first_char s = Some c → Js.is_space c = false → Js.trimStart s = s.
Proof. destruct s; [done |]. simpl. by intros [= ->] ->. Qed.

Lemma trimEnd_solid s c :
  last_char s = Some c → Js.is_space c = false → Js.trimEnd s = s.
Proof.
  intros [x ->]%last_char_Some Hc. rewrite trimEnd_keeps; simpl; by rewrite Hc.
Qed.

Lemma trim_solid s a z :
  first_char s = Some a → Js.is_space a = false →
  last_char s = Some z → Js.is_space z = false →
  Js.trim s = s.
Proof.
  intros Ha Hna Hz Hnz. unfold Js.trim.
  rewrite (trimStart_first _ _ Ha Hna). by eapply trimEnd_solid.
Qed.

Lemma trimStart_first_char s :
  match first_char (Js.trimStart s) with
  | Some c => Js.is_space c = false
  | None => Js.trimStart s = ""
  end.
Proof.
  induction s as [|c s IH]; [done |]. simpl.
  destruct (Js.is_space c) eqn:Hc; [done | exact Hc].
Qed.

Lemma trimEnd_first s c :
  first_char s = Some c → Js.is_space c = false →
  first_char (Js.trimEnd s) = Some c.
Proof.
  destruct s as [|a s]; [done |]. intros [= ->] Hc. simpl.
  destruct (Js.trimEnd s); [by rewrite Hc | done].
Qed.

(** The two ends of a trimmed text. *)
Lemma trim_ends s :
  Js.trim s = "" ∨
  ∃ a z, first_char (Js.trim s) = Some a ∧ Js.is_space a = false
         ∧ last_char (Js.trim s) = Some z ∧ Js.is_space z = false.
Proof.
  unfold Js.trim. pose proof (trimStart_first_char s) as Hf.
  pose proof (trimEnd_last (Js.trimStart s)) as Hl.
  destruct (first_char (Js.trimStart s)) as [a|] eqn:Ha.
  - right. pose proof (trimEnd_first _ _ Ha Hf) as Ha'.
    destruct (last_char (Js.trimEnd (Js.trimStart s))) as [z|] eqn:Hz.
    + by exists a, z.
    + rewrite Hl in Ha'. done.
  - left. by rewrite Hf.
Qed.

Lemma trim_idemp s : Js.trim (Js.trim s) = Js.trim s.
Proof.
  destruct (trim_ends s) as [-> | (a & z & ? & ? & ? & ?)]; [done |].
  by eapply trim_solid.
Qed.

(** A text that [trim] leaves as it is, and is not empty. *)
Lemma trimmed_ends s :
  Js.trim s = s → Js.truthy s = true →
  ∃ a z, first_char s = Some a ∧ Js.is_space a = false
         ∧ last_char s = Some z ∧ Js.is_space z = false.
Proof.
  intros Ht Hs. destruct (trim_ends s) as [H | H]; rewrite Ht in H; [| done].
  by subst s.
Qed.

Lemma last_char_append x y :
  Js.truthy y = true → last_char (x +:+ y) = last_char y.
Proof.
  intros Hy. induction x as [|c x IH]; [done |].
  rewrite append_cons. simpl. rewrite IH.
  destruct (x +:+ y) eqn:E; [| done].
  destruct x, y; done.
Qed.

Lemma first_char_append x y :
  Js.truthy x = true → first_char (x +:+ y) = first_char x.
Proof. by destruct x. Qed.

Lemma length_map f s : String.length (Js.map f s) = String.length s.
Proof. induction s; simpl; congruence. Qed.

Lemma drop_append x y : Js.drop (String.length x) (x +:+ y) = y.
Proof. induction x; done. Qed.

Lemma first_char_map f s : first_char (Js.map f s) = f <$> first_char s.
Proof. by destruct s. Qed.

Lemma last_char_map f s : last_char (Js.map f s) = f <$> last_char s.
Proof.
  induction s as [|c s IH]; [done |]. simpl. rewrite IH. by destruct s.
Qed.

Lemma truthy_map f s : Js.truthy (Js.map f s) = Js.truthy s.
Proof. by destruct s. Qed.

Lemma all_append f x y : Js.all f (x +:+ y) = Js.all f x && Js.all f y.
Proof.
  induction x as [|c x IH]; [done |]. rewrite append_cons. simpl.
  by rewrite IH, andb_assoc.
Qed.

Lemma all_toLowerCase_line s :
  Js.all (λ c, negb (Js.is_line_terminator c)) (Js.toLowerCase s)
  = Js.all (λ c, negb (Js.is_line_terminator c)) s.
Proof.
  unfold Js.toLowerCase.
  induction s as [|c s IH]; [done |]. simpl.
  by rewrite lower_char_is_line_terminator, IH.
Qed.

End more_strings.

(** ** Commands that carry a name *)

(** A keyword in any mix of cases, a blank and a trimmed name: the
    command is trimmed already, its lower case is the keyword, the blank
    and the name in lower case, and the name is what is left when the
    keyword is taken away. *)
Lemma keyword_command kw key n :
  Js.toLowerCase kw = key → Js.truthy key = true →
  (∀ c, first_char key = Some c → Js.is_space c = false) →
  Js.trim n = n → Js.truthy n = true →
  Js.trim (kw +:+ " " +:+ n) = kw +:+ " " +:+ n
  ∧ Js.truthy (kw +:+ " " +:+ n) = true
  ∧ Js.toLowerCase (kw +:+ " " +:+ n) = key +:+ " " +:+ Js.toLowerCase n
  ∧ Js.strip_keyword key (kw +:+ " " +:+ n) = n.
Proof.
  intros Hkw Hkey Hfirst Hn Htn.
  destruct (trimmed_ends n Hn Htn) as (a & z & Ha & Hna & Hz & Hnz).
  assert (Js.truthy kw = true) as Hk.
  { rewrite <- Hkw in Hkey. unfold Js.toLowerCase in Hkey.
    by rewrite truthy_map in Hkey. }
  assert (∃ k, first_char kw = Some k ∧ Js.is_space k = false) as (k & Hk1 & Hk2).
  { destruct kw as [|k kw]; [done |]. exists k. split; [done |].
    rewrite <- lower_char_is_space. apply Hfirst. by rewrite <- Hkw. }
  assert (Js.trimStart (kw +:+ " " +:+ n) = kw +:+ " " +:+ n) as Hts.
  { apply trimStart_first with k; [| done]. by rewrite first_char_append. }
  assert (Js.toLowerCase (kw +:+ " " +:+ n) = key +:+ " " +:+ Js.toLowerCase n) as Hl.
  { unfold Js.toLowerCase in *. by rewrite !map_append, Hkw. }
  split_and!; [| by apply truthy_append_l | done |].
  - apply (trim_solid _ k z); [by rewrite first_char_append | done | | done].
    rewrite !last_char_append; [done | done |]. by apply truthy_append.
  - unfold Js.strip_keyword. rewrite Hts, Hl, startsWith_append.
    replace (String.length key) with (String.length kw)
      by (rewrite <- Hkw; unfold Js.toLowerCase; by rewrite length_map).
    rewrite drop_append, append_cons, append_empty. simpl.
    by eapply trimStart_first.
Qed.

(** X1. The commands [add] and [remind me to], with the keyword in any
    mix of upper and lower case: the task that is posted to [/add] is
    the rest of the command, in the case it was spoken in. *)
Theorem add_sends_name_as_spoken kw key n :
  In key ["add"; "remind me to"] → Js.toLowerCase kw = key →
  Js.trim n = n → Js.truthy n = true →
  processCommand (Some (kw +:+ " " +:+ n)) = sendCommandJson "/add" [("task", n)].
Proof.
  intros Hkey Hkw Hn Htn.
  destruct (keyword_command kw key n Hkw) as (Ht & Htr & Hl & Hs);
    [by repeat (destruct Hkey as [<- | Hkey]; [done |])
    | by repeat (destruct Hkey as [<- | Hkey]; [by intros ? [= <-] |])
    | done | done |].
  unfold processCommand. rewrite Htr, Ht, Htr. cbn [negb]. cbv zeta.
  simpl in Hkey. destruct Hkey as [<- | [<- | []]].
  - assert (Js.startsWith "add " (Js.toLowerCase (kw +:+ " " +:+ n)) = true) as ->
      by (by rewrite Hl).
    by rewrite Hs, Hn, Htn.
  - assert (Js.startsWith "add " (Js.toLowerCase (kw +:+ " " +:+ n)) = false) as ->
      by (by rewrite Hl).
    assert (Js.startsWith "remind me to " (Js.toLowerCase (kw +:+ " " +:+ n)) = true)
      as -> by (by rewrite Hl).
    by rewrite Hs, Hn, Htn.
Qed.

Lemma add_sends_name_as_spoken_witness :
  processCommand (Some ("Add" +:+ " " +:+ "Buy Milk"))
  = sendCommandJson "/add" [("task", "Buy Milk")]
  ∧ processCommand (Some ("Remind me to" +:+ " " +:+ "call Bob"))
    = sendCommandJson "/add" [("task", "call Bob")].
Proof.
  split.
  - apply (add_sends_name_as_spoken "Add" "add"); [simpl; tauto | reflexivity ..].
  - apply (add_sends_name_as_spoken "Remind me to" "remind me to");
      [simpl; tauto | reflexivity ..].
Defined.

Lemma leading_spaces_first s c :
  first_char s = Some c → Js.is_space c = false → Js.leading_spaces s = 0.
Proof. destruct s; [done |]. simpl. by intros [= ->] ->. Qed.

(** [delete] or [remove], a blank, and a name on one line that does not
    start with white space. *)
Lemma match_delete_name key x c :
  In key ["delete"; "remove"] →
  first_char x = Some c → Js.is_space c = false →
  Js.all (λ c, negb (Js.is_line_terminator c)) x = true →
  Js.match_delete (key +:+ " " +:+ x) = Some x.
Proof.
  intros Hkey Hc Hnc Hline. unfold Js.match_delete.
  assert (Js.startsWith "delete" (key +:+ " " +:+ x)
          || Js.startsWith "remove" (key +:+ " " +:+ x) = true) as ->.
  { simpl in Hkey. destruct Hkey as [<- | [<- | []]];
      rewrite startsWith_append; [done | apply orb_true_r]. }
  assert (Js.drop 6 (key +:+ " " +:+ x) = String " " x) as ->.
  { simpl in Hkey. by destruct Hkey as [<- | [<- | []]]. }
  cbn [Js.leading_spaces]. change (Js.is_space " ") with true. cbv iota.
  rewrite (leading_spaces_first _ _ Hc Hnc). cbn [Js.greedy_spaces Js.drop].
  unfold Js.rest_of_line. rewrite Hline. by destruct x.
Qed.

(** X2. The commands [delete] and [remove], with the keyword in any mix
    of cases, followed by a name on one line: the name is posted to
    [/delete-by-name] in lower case.  The name can be [all] or
    [completed]: as whole commands, [remove all] and [remove completed]
    delete by name and open no dialog. *)
Theorem delete_sends_name_in_lower_case kw key n :
  In key ["delete"; "remove"] → Js.toLowerCase kw = key →
  Js.trim n = n → Js.truthy n = true →
  Js.all (λ c, negb (Js.is_line_terminator c)) n = true →
  processCommand (Some (kw +:+ " " +:+ n))
  = sendCommandJson "/delete-by-name" [("name", Js.toLowerCase n)].
Proof.
  intros Hkey Hkw Hn Htn Hline.
  destruct (keyword_command kw key n Hkw) as (Ht & Htr & Hl & _);
    [by repeat (destruct Hkey as [<- | Hkey]; [done |])
    | by repeat (destruct Hkey as [<- | Hkey]; [by intros ? [= <-] |])
    | done | done |].
  destruct (trimmed_ends n Hn Htn) as (a & z & Ha & Hna & _).
  unfold processCommand. rewrite Htr, Ht, Htr. cbn [negb]. cbv zeta.
  rewrite Hl.
  assert (Js.startsWith "add " (key +:+ " " +:+ Js.toLowerCase n) = false) as ->.
  { simpl in Hkey. by destruct Hkey as [<- | [<- | []]]. }
  assert (Js.startsWith "remind me to " (key +:+ " " +:+ Js.toLowerCase n) = false)
    as ->.
  { simpl in Hkey. by destruct Hkey as [<- | [<- | []]]. }
  assert (Js.match_mark (key +:+ " " +:+ Js.toLowerCase n) = None) as ->.
  { simpl in Hkey. by destruct Hkey as [<- | [<- | []]]. }
  rewrite (match_delete_name key _ (Js.lower_char a)); try done.
  - by rewrite trim_toLowerCase, Hn.
  - unfold Js.toLowerCase. by rewrite first_char_map, Ha.
  - by rewrite lower_char_is_space.
  - by rewrite all_toLowerCase_line.
Qed.

Lemma delete_sends_name_in_lower_case_witness :
  processCommand (Some ("Delete" +:+ " " +:+ "Buy Milk"))
  = sendCommandJson "/delete-by-name" [("name", "buy milk")]
  ∧ processCommand (Some ("remove" +:+ " " +:+ "all"))
    = sendCommandJson "/delete-by-name" [("name", "all")].
Proof.
  split.
  - apply (delete_sends_name_in_lower_case "Delete" "delete" "Buy Milk");
      [simpl; tauto | reflexivity ..].
  - apply (delete_sends_name_in_lower_case "remove" "remove" "all");
      [simpl; tauto | reflexivity ..].
Defined.

(** ** The command [mark ... done] *)

Section mark.
Implicit Types (s p q x y m : string) (c : ascii).

Lemma length_append x y :
  String.length (x +:+ y) = String.length x + String.length y.
Proof. induction x as [|c x IH]; [done |]. rewrite append_cons. simpl. lia. Qed.

Lemma append_nil_r x : x +:+ "" = x.
Proof. induction x as [|c x IH]; [done |]. by rewrite append_cons, IH. Qed.

Lemma append_inv_tail x y s : x +:+ s = y +:+ s → x = y.
Proof.
  revert y. induction x as [|a x IH]; intros [|b y] H; [done | | |].
  - apply (f_equal String.length) in H.
    rewrite append_cons, append_empty in H. simpl in H.
    rewrite length_append in H. lia.
  - apply (f_equal String.length) in H.
    rewrite append_cons, append_empty in H. simpl in H.
    rewrite length_append in H. lia.
  - rewrite !append_cons in H. injection H as -> H. f_equal. by apply IH.
Qed.

Lemma append_last_inj x y c d :
  x +:+ String c "" = y +:+ String d "" → x = y ∧ c = d.
Proof.
  revert y. induction x as [|a x IH]; intros [|b y] H.
  - by injection H.
  - rewrite append_empty, append_cons in H. injection H as -> H.
    by destruct y.
  - rewrite append_empty, append_cons in H. injection H as -> H.
    by destruct x.
  - rewrite !append_cons in H. injection H as -> H.
    destruct (IH _ H) as [-> ->]. done.
Qed.

Lemma blank_last s c :
  blank_string s = true → last_char s = Some c → Js.is_space c = true.
Proof.
  unfold blank_string. intros Hs [x ->]%last_char_Some.
  rewrite all_append in Hs. apply andb_prop in Hs as [_ Hs]. simpl in Hs.
  by rewrite andb_true_r in Hs.
Qed.

(** A text is its leading white space followed by the rest. *)
Lemma leading_split s :
  ∃ a, blank_string a = true
       ∧ String.length a = Js.leading_spaces s
       ∧ s = a +:+ Js.drop (Js.leading_spaces s) s.
Proof.
  induction s as [|c s (a & Ha & Hl & Hs)]; [by exists "" |]. simpl.
  destruct (Js.is_space c) eqn:Hc.
  - exists (String c a). unfold blank_string in *. simpl.
    rewrite Hc, Ha, Hl, append_cons, <- Hs. done.
  - by exists "".
Qed.

Lemma startsWith_split p s :
  Js.startsWith p s = true → s = p +:+ Js.drop (String.length p) s.
Proof.
  revert s. induction p as [|a p IH]; intros [|b s]; simpl; try done.
  intros [->%Ascii.eqb_eq H]%andb_prop. rewrite append_cons. f_equal. by apply IH.
Qed.

Lemma drop_drop a b s : Js.drop (a + b) s = Js.drop a (Js.drop b s).
Proof.
  revert s. induction b as [|b IH]; intros s.
  - by rewrite Nat.add_0_r.
  - rewrite Nat.add_succ_r. destruct s as [|c s]; simpl; [by destruct a | apply IH].
Qed.

Lemma truthy_length s : Js.truthy s = true ↔ String.length s ≠ 0.
Proof. by destruct s. Qed.

(** What [\s+(?:as\s+)?done$] accepts. *)
Lemma done_tail_inv s :
  Js.done_tail s = true →
  ∃ a, blank_string a = true ∧ Js.truthy a = true
       ∧ (s = a +:+ "done"
          ∨ ∃ b, blank_string b = true ∧ Js.truthy b = true
                 ∧ s = a +:+ "as" +:+ b +:+ "done").
Proof.
  unfold Js.done_tail. intros H.
  destruct (leading_split s) as (a & Ha & Hl & Hs).
  destruct (Js.leading_spaces s) as [|k] eqn:Ek; [done |].
  set (r := Js.drop (S k) s) in *.
  exists a. split; [done |]. split; [apply truthy_length; lia |].
  apply orb_prop in H as [H | H].
  - left. apply String.eqb_eq in H. by rewrite <- H.
  - right. apply andb_prop in H as [Has H].
    destruct (leading_split (Js.drop 2 r)) as (b & Hb & Hlb & Hr).
    destruct (Js.leading_spaces (Js.drop 2 r)) as [|k'] eqn:Ek'; [done |].
    apply String.eqb_eq in H. rewrite drop_drop in H.
    exists b. split; [done |]. split; [apply truthy_length; lia |].
    rewrite Hs at 1. f_equal.
    rewrite (startsWith_split _ _ Has) at 1. f_equal.
    change (String.length "as") with 2. rewrite Hr at 1. by rewrite H.
Qed.

Lemma last_char_truthy s c : last_char s = Some c → Js.truthy s = true.
Proof. by destruct s. Qed.

Lemma truthy_last_char s : Js.truthy s = true → ∃ c, last_char s = Some c.
Proof.
  induction s as [|a s IH]; [done |]. intros _. simpl.
  destruct s; [by eexists |]. by apply IH.
Qed.

(** After a name that ends in something other than white space,
    [ as done] is the only way to finish. *)
Lemma done_tail_as_done q z :
  last_char q = Some z → Js.is_space z = false →
  Js.done_tail (q +:+ " as done") = false.
Proof.
  intros Hz Hnz. apply not_true_is_false.
  intros (a & Ha & Hta & [E | (b & Hb & Htb & E)])%done_tail_inv.
  - change " as done" with (" as " +:+ "done") in E.
    rewrite <- append_assoc in E. apply append_inv_tail in E. subst a.
    unfold blank_string in Ha. rewrite all_append in Ha.
    by apply andb_prop in Ha as [_ Ha].
  - change " as done" with (" as " +:+ "done") in E.
    rewrite <- append_assoc, <- !(append_assoc _ _ "done") in E.
    apply append_inv_tail in E.
    destruct (truthy_last_char b Htb) as [c Hc].
    pose proof (blank_last _ _ Hb Hc) as Hsc.
    apply last_char_Some in Hc as [b' ->].
    change " as " with (" as" +:+ " ") in E.
    rewrite <- !append_assoc in E. apply append_last_inj in E as [E _].
    destruct b' as [|c' b'].
    + rewrite append_nil_r in E. change " as" with (" " +:+ "as") in E.
      rewrite <- append_assoc in E. apply append_inv_tail in E. subst a.
      unfold blank_string in Ha. rewrite all_append in Ha.
      apply andb_prop in Ha as [Ha _].
      by rewrite (blank_last q z Ha Hz) in Hnz.
    + apply (f_equal last_char) in E.
      rewrite last_char_append in E by done.
      rewrite append_assoc, !last_char_append in E by done.
      unfold blank_string in Hb. rewrite all_append in Hb.
      apply andb_prop in Hb as [Hb _].
      destruct (truthy_last_char (String c' b') eq_refl) as [d Hd].
      pose proof (blank_last _ _ Hb Hd) as Hsd.
      rewrite Hd in E. simpl in E. injection E as <-. done.
Qed.

(** The same for [ done], unless the name itself ends in [as] after
    white space. *)
Lemma done_tail_done q z :
  last_char q = Some z → Js.is_space z = false →
  (∀ x c, Js.is_space c = true → q ≠ x +:+ String c "as") →
  Js.done_tail (q +:+ " done") = false.
Proof.
  intros Hz Hnz Hq. apply not_true_is_false.
  intros (a & Ha & Hta & [E | (b & Hb & Htb & E)])%done_tail_inv.
  - change " done" with (" " +:+ "done") in E.
    rewrite <- append_assoc in E. apply append_inv_tail in E. subst a.
    unfold blank_string in Ha. rewrite all_append in Ha.
    apply andb_prop in Ha as [Ha _].
    by rewrite (blank_last q z Ha Hz) in Hnz.
  - change " done" with (" " +:+ "done") in E.
    rewrite <- append_assoc, <- !(append_assoc _ _ "done") in E.
    apply append_inv_tail in E.
    destruct (truthy_last_char b Htb) as [c Hc].
    apply last_char_Some in Hc as [b' ->].
    rewrite <- !append_assoc in E. apply append_last_inj in E as [E _].
    unfold blank_string in Hb. rewrite all_append in Hb.
    apply andb_prop in Hb as [Hb _].
    destruct b' as [|c' b'].
    + destruct (truthy_last_char a Hta) as [d Hd].
      pose proof (blank_last _ _ Ha Hd) as Hsd.
      apply last_char_Some in Hd as [a' ->].
      apply (Hq a' d Hsd). rewrite E.
      rewrite !append_assoc. done.
    + destruct (truthy_last_char (String c' b') eq_refl) as [d Hd].
      pose proof (blank_last _ _ Hb Hd) as Hsd.
      apply (f_equal last_char) in E.
      rewrite append_assoc, !last_char_append in E by done.
      rewrite Hz, Hd in E. injection E as ->. congruence.
Qed.

Lemma string_of_rev_cons c acc y :
  string_of_list_ascii (rev (c :: acc)) +:+ y
  = string_of_list_ascii (rev acc) +:+ String c y.
Proof.
  simpl. induction (rev acc) as [|a l IH]; [done |].
  simpl. by rewrite !append_cons, IH.
Qed.

(** The lazy group stops at the first place where the rest of the
    pattern matches: after the whole name, when no proper prefix of it
    will do. *)
Lemma lazy_name_whole acc m tail :
  Js.truthy m = true →
  Js.all (λ c, negb (Js.is_line_terminator c)) m = true →
  Js.done_tail tail = true →
  (∀ p q, m = p +:+ q → Js.truthy p = true → Js.truthy q = true →
          Js.done_tail (q +:+ tail) = false) →
  Js.lazy_name acc (m +:+ tail)
  = Some (string_of_list_ascii (rev acc) +:+ m).
Proof.
  revert acc. induction m as [|c m IH]; intros acc Hm Hline Htail Hsplit; [done |].
  rewrite append_cons. cbn [Js.lazy_name].
  simpl in Hline. apply andb_prop in Hline as [Hc Hline].
  apply negb_true_iff in Hc. rewrite Hc.
  destruct m as [|c' m].
  - rewrite append_empty, Htail. f_equal.
    rewrite <- (string_of_rev_cons c acc ""). simpl.
    induction (rev acc ++ [c]) as [|a l IHl]; [done |].
    simpl. by rewrite append_cons, <- IHl.
  - rewrite (Hsplit (String c "") (String c' m)) by done.
    rewrite IH; [by rewrite string_of_rev_cons | done | done | done |].
    intros p q E Hp Hq. apply (Hsplit (String c p) q); [| done | done].
    by rewrite append_cons, <- E.
Qed.

Lemma match_mark_name m tail a :
  first_char m = Some a → Js.is_space a = false →
  Js.all (λ c, negb (Js.is_line_terminator c)) m = true →
  Js.done_tail tail = true →
  (∀ p q, m = p +:+ q → Js.truthy p = true → Js.truthy q = true →
          Js.done_tail (q +:+ tail) = false) →
  Js.match_mark ("mark " +:+ m +:+ tail) = Some m.
Proof.
  intros Ha Hna Hline Htail Hsplit. unfold Js.match_mark.
  change (Js.startsWith "mark" ("mark " +:+ m +:+ tail)) with true. cbv iota.
  change (Js.drop 4 ("mark " +:+ m +:+ tail)) with (String " " (m +:+ tail)).
  cbn [Js.leading_spaces]. change (Js.is_space " ") with true. cbv iota.
  rewrite (leading_spaces_first (m +:+ tail) a);
    [| rewrite first_char_append; [done | by destruct m] | done].
  cbn [Js.greedy_spaces Js.drop].
  rewrite (lazy_name_whole [] m tail); [done | by destruct m | done ..].
Qed.

End mark.

(** X3. The command [mark NAME as done], in any mix of cases and with
    white space around it: for every NAME that is on one line, trimmed
    and not empty, NAME in lower case is what is posted to
    [/mark-by-name].  The same holds of [mark NAME done], unless NAME
    itself ends in the word [as]. *)
Theorem mark_sends_name cmd m :
  Js.trim m = m → Js.truthy m = true →
  Js.all (λ c, negb (Js.is_line_terminator c)) m = true →
  Js.toLowerCase (Js.trim cmd) = "mark " +:+ m +:+ " as done"
  ∨ (Js.toLowerCase (Js.trim cmd) = "mark " +:+ m +:+ " done"
     ∧ ∀ x c, Js.is_space c = true → m ≠ x +:+ String c "as") →
  processCommand (Some cmd) = sendCommandJson "/mark-by-name" [("name", m)].
Proof.
  intros Hm Htm Hline Hcmd.
  destruct (trimmed_ends m Hm Htm) as (a & z & Ha & Hna & Hz & Hnz).
  assert (Js.truthy (Js.trim cmd) = true) as Ht.
  { destruct Hcmd as [E | [E _]]; destruct (Js.trim cmd); done. }
  assert (Js.match_mark (Js.toLowerCase (Js.trim cmd)) = Some m) as Hmark.
  { destruct Hcmd as [-> | [-> Hno]].
    - apply match_mark_name with a; try done.
      intros p q -> Hp Hq. apply done_tail_as_done with z; [| done].
      by rewrite last_char_append in Hz.
    - apply match_mark_name with a; try done.
      intros p q -> Hp Hq. apply done_tail_done with z; [| done |].
      + by rewrite last_char_append in Hz.
      + intros x c Hc ->. apply (Hno (p +:+ x) c Hc). by rewrite append_assoc. }
  unfold processCommand. rewrite (trim_truthy _ Ht), Ht. cbn [negb]. cbv zeta.
  rewrite Hmark.
  assert (Js.startsWith "add " (Js.toLowerCase (Js.trim cmd)) = false) as ->
    by (by destruct Hcmd as [-> | [-> _]]).
  assert (Js.startsWith "remind me to " (Js.toLowerCase (Js.trim cmd)) = false) as ->
    by (by destruct Hcmd as [-> | [-> _]]).
  by rewrite Hm.
Qed.

Lemma mark_sends_name_witness :
  processCommand (Some " Mark Buy Milk as Done ")
  = sendCommandJson "/mark-by-name" [("name", "buy milk")]
  ∧ processCommand (Some "mark buy milk done")
    = sendCommandJson "/mark-by-name" [("name", "buy milk")].
Proof.
  split.
  - apply (mark_sends_name " Mark Buy Milk as Done " "buy milk");
      [reflexivity | reflexivity | reflexivity |]. left. reflexivity.
  - apply (mark_sends_name "mark buy milk done" "buy milk");
      [reflexivity | reflexivity | reflexivity |]. right.
    split; [reflexivity |]. intros x c _ E.
    apply (f_equal last_char) in E.
    rewrite last_char_append in E; [discriminate | reflexivity].
Defined.

(** ** Letter case and margins of a command *)

Lemma truthy_toLowerCase s : Js.truthy (Js.toLowerCase s) = Js.truthy s.
Proof. by destruct s. Qed.

(** X4. A command is taken the same with or without white space around
    it; and unless it is an [add] or a [remind me to], whose task name
    keeps its case, it is taken the same in lower case. *)
Theorem processCommand_case_and_margins :
  (∀ cmd, processCommand (Some cmd) = processCommand (Some (Js.trim cmd)))
  ∧ (∀ cmd,
       Js.startsWith "add " (Js.toLowerCase (Js.trim cmd)) = false →
       Js.startsWith "remind me to " (Js.toLowerCase (Js.trim cmd)) = false →
       processCommand (Some cmd) = processCommand (Some (Js.toLowerCase cmd))).
Proof.
  split.
  - intros cmd. unfold processCommand. rewrite trim_idemp.
    destruct (Js.truthy cmd) eqn:Hc; cbn [negb]; cbv zeta.
    + destruct (Js.truthy (Js.trim cmd)); done.
    + by destruct cmd.
  - intros cmd Hadd Hremind. unfold processCommand. cbv zeta.
    rewrite trim_toLowerCase, toLowerCase_idemp.
    rewrite !truthy_toLowerCase. by rewrite Hadd, Hremind.
Qed.

Lemma processCommand_case_and_margins_witness :
  processCommand (Some "  List Pending  ") = processCommand (Some "list pending").
Proof.
  destruct processCommand_case_and_margins as [H1 H2].
  rewrite (H1 "  List Pending  ").
  apply (H2 "List Pending"); reflexivity.
Defined.

(** ** More on the wake word *)

Lemma lower_char_is_punct c : Js.is_punct (Js.lower_char c) = Js.is_punct c.
Proof. destruct c as [[] [] [] [] [] [] [] []]; vm_compute; reflexivity. Qed.

Lemma collapse_from_blank b s :
  blank_string s = true → blank_string (Js.collapse_from b s) = true.
Proof.
  unfold blank_string. revert b.
  induction s as [|c s IH]; intros b; [done |]. simpl.
  intros [Hc Hs]%andb_prop. rewrite Hc. destruct b; simpl; auto.
Qed.

(** A transcript of white space and punctuation only has the empty
    normal form. *)
Lemma normalize_blank t :
  Js.all (λ c, Js.is_space c || Js.is_punct c) t = true → normalize t = "".
Proof.
  intros Ht. unfold normalize, Js.trim.
  rewrite trimStart_blank; [done |].
  apply collapse_from_blank. unfold blank_string, Js.replace_punct, Js.toLowerCase.
  induction t as [|c t IH]; [done |]. simpl in *.
  apply andb_prop in Ht as [Hc Ht]. rewrite IH by done.
  rewrite lower_char_is_punct.
  destruct (Js.is_punct c) eqn:Hp; [done |].
  rewrite lower_char_is_space. by rewrite orb_false_r in Hc; rewrite Hc.
Qed.

(** X5. The wake word is not heard in a transcript that is empty or
    made of white space and of the punctuation that normalization
    blanks out. *)
Theorem wakeWordHeard_blank t :
  Js.all (λ c, Js.is_space c || Js.is_punct c) t = true →
  wakeWordHeard t = false.
Proof.
  intros Ht. unfold wakeWordHeard. rewrite (normalize_blank t Ht).
  by destruct (Js.truthy t).
Qed.

Lemma wakeWordHeard_blank_witness :
  wakeWordHeard "" = false ∧ wakeWordHeard " ...  ?! " = false.
Proof. split; apply wakeWordHeard_blank; reflexivity. Defined.

Lemma includes_split p s :
  Js.includes p s = true → ∃ pre post, s = pre +:+ p +:+ post.
Proof.
  induction s as [|c s IH]; simpl.
  - rewrite orb_false_r. intros H%startsWith_split.
    by exists "", (Js.drop (String.length p) "").
  - intros [H%startsWith_split | (pre & post & ->)%IH]%orb_prop.
    + by exists "", (Js.drop (String.length p) (String c s)).
    + by exists (String c pre), post.
Qed.

Lemma map_append_inv f s x y :
  Js.map f s = x +:+ y →
  ∃ s1 s2, s = s1 +:+ s2 ∧ Js.map f s1 = x ∧ Js.map f s2 = y.
Proof.
  revert s. induction x as [|c x IH]; intros s H.
  - by exists "", s.
  - destruct s as [|a s]; [done |]. rewrite append_cons in H. simpl in H.
    injection H as <- H. destruct (IH _ H) as (s1 & s2 & -> & <- & <-).
    by exists (String a s1), s2.
Qed.

(** What the earlier client takes for the wake word, so does
    [wakeWordHeard]. *)
Lemma script3_wake_heard_wakeWordHeard heard :
  Script3Voice.wake_heard heard = true → wakeWordHeard (Js.trim heard) = true.
Proof.
  unfold Script3Voice.wake_heard. cbv zeta.
  assert (∀ p, In p wakeVariants →
               Js.includes p (Js.toLowerCase (Js.trim heard)) = true →
               wakeWordHeard (Js.trim heard) = true) as Hp.
  { intros p Hin (pre & post & E)%includes_split.
    unfold Js.toLowerCase in E.
    apply map_append_inv in E as (s1 & s2 & -> & _ & E).
    apply map_append_inv in E as (q & s3 & -> & Hq & _).
    by apply wakeWordHeard_embedded with p. }
  intros [H | H]%orb_prop; eapply Hp; try exact H; simpl; tauto.
Qed.

(** X6. Every transcript that woke the earlier client wakes the current
    one: where the earlier test holds, the [onresult] handlers of the
    two wake recognizers do the same in every state. *)
Theorem script3_wake_still_detected heard w :
  Script3Voice.wake_heard heard = true →
  wakeRecognition_onresult heard w = Script3Voice.wakeRecognition_onresult heard w.
Proof.
  intros H. unfold wakeRecognition_onresult, Script3Voice.wakeRecognition_onresult.
  cbv zeta. by rewrite H, (script3_wake_heard_wakeWordHeard heard H).
Qed.

Lemma script3_wake_still_detected_witness :
  wakeRecognition_onresult " Hello to do, please " (loaded true true)
  = Script3Voice.wakeRecognition_onresult " Hello to do, please " (loaded true true).
Proof. apply script3_wake_still_detected. reflexivity. Defined.

(** ** Invariants of runs *)

(** What every enabled event keeps, every run keeps. *)
Lemma run_invariant (I : World → Prop) (Q : Effect → Prop) (E : Event → Prop) :
  (∀ ev w w' effs, E ev → I w → handle ev w = Some (w', effs) →
                   I w' ∧ Forall Q effs) →
  ∀ evs w w' effs,
    Forall E evs → I w → run evs w = Some (w', effs) → I w' ∧ Forall Q effs.
Proof.
  intros Hstep evs. induction evs as [|ev evs IH]; intros w w' effs Hevs Hw H.
  - simpl in H. by simplify_eq.
  - simpl in H. apply Forall_cons in Hevs as [Hev Hevs].
    destruct (handle ev w) as [[w1 e1]|] eqn:E1; [| done].
    destruct (run evs w1) as [[w2 e2]|] eqn:E2; [| done]. simplify_eq.
    destruct (Hstep _ _ _ _ Hev Hw E1) as [Hw1 He1].
    destruct (IH _ _ _ Hevs Hw1 E2) as [Hw2 He2].
    split; [done | by apply Forall_app].
Qed.

(** The handler that an event runs, case by case. *)
Ltac handler_cases H :=
  simpl in H; repeat case_match; simplify_eq;
  try match goal with c : callback |- _ => destruct c end;
  repeat match goal with k : kind |- _ => destruct k end.

(** ** A browser without speech recognition *)

Ltac no_recognition_leaf :=
  try done;
  unfold no_recognition;
  try (intros (? & ? & ? & ?); simpl;
       repeat match goal with H : _ = [] |- _ => rewrite H end;
       split_and!; done).

Ltac no_recognition_absurd :=
  unfold no_recognition; intros (? & ? & ? & ?); simpl in *;
  match goal with
  | H1 : ?l = [], H2 : ?l !! _ = Some _ |- _ => rewrite H1 in H2; discriminate
  | H1 : ?b = false, H2 : negb ?b = false |- _ => rewrite H1 in H2; discriminate
  | H1 : ?b = false, H2 : ?b = true |- _ => rewrite H1 in H2; discriminate
  end.

Lemma no_recognition_step ev w w' effs :
  no_recognition w → handle ev w = Some (w', effs) →
  no_recognition w' ∧ Forall not_start effs.
Proof.
  intros Hinv H.
  destruct ev; handler_cases H; try done;
    (eapply (safe_exec no_recognition); [| done | done]);
    safe_run no_recognition_leaf no_recognition_absurd.
Qed.

(** X7. In a browser without speech recognition the script shows that
    the API is not supported and at once replaces the message by the
    invitation to say the wake word; from then on, whatever happens, no
    recognizer is created and none is started. *)
Theorem without_recognition_no_session s :
  (exec main (blank false s)).2
  = [EStatus "Web Speech API not supported." "red";
     EFetch GET "/tasks?sort=created" [];
     EStatus "Say 'Hey To Do' to start." "green"]
  ∧ statusText (dom (loaded false s)) = ("Say 'Hey To Do' to start.", "green")
  ∧ ∀ evs w effs,
      run evs (loaded false s) = Some (w, effs) →
      Forall not_start effs
      ∧ wake_sessions (browser w) = []
      ∧ command_sessions (browser w) = []
      ∧ confirm_sessions (browser w) = []
      ∧ capturing w = 0.
Proof.
  split; [by destruct s |]. split; [by destruct s |].
  intros evs w effs H.
  assert (no_recognition (loaded false s)) as Hinv by (destruct s; repeat split).
  destruct (run_invariant no_recognition not_start (λ _, True)
              (λ ev w w' effs _ Hw Hev, no_recognition_step ev w w' effs Hw Hev)
              evs _ _ _ (Forall_true _ _ (λ _, I)) Hinv H)
    as [(Hr & Hw & Hc & Hf) He].
  split_and!; try done. unfold capturing. by rewrite Hw, Hc, Hf.
Qed.

Lemma without_recognition_no_session_witness :
  Forall not_start
    (effects [EvMuteClick; EvMuteClick; EvClearClick] (loaded false true))
  ∧ capturing (after [EvMuteClick; EvMuteClick; EvClearClick] (loaded false true))
    = 0.
Proof.
  destruct (without_recognition_no_session true) as (_ & _ & H).
  destruct (H [EvMuteClick; EvMuteClick; EvClearClick]
              (after [EvMuteClick; EvMuteClick; EvClearClick] (loaded false true))
              (effects [EvMuteClick; EvMuteClick; EvClearClick]
                 (loaded false true)))
    as (He & _ & _ & _ & Hc); [vm_compute; reflexivity |].
  split; [exact He | exact Hc].
Defined.

(** ** A browser without speech synthesis *)

Ltac no_synth_leaf :=
  try done;
  unfold no_synth;
  try (intros (? & ?); simpl; split; done).

Ltac no_synth_absurd :=
  unfold no_synth; intros (? & ?); simpl in *;
  match goal with
  | H1 : ?b = false, H2 : negb ?b = false |- _ => rewrite H1 in H2; discriminate
  | H1 : ?b = false, H2 : ?b = true |- _ => rewrite H1 in H2; discriminate
  end.

Lemma no_synth_step ev w w' effs :
  no_synth w → handle ev w = Some (w', effs) →
  no_synth w' ∧ Forall not_command_start effs.
Proof.
  intros Hinv H.
  destruct ev; handler_cases H; try done;
    try (destruct Hinv as [_ Hu]; congruence);
    (eapply (safe_exec no_synth); [| done | done]);
    safe_run no_synth_leaf no_synth_absurd.
Qed.

(** X8. In a browser without speech synthesis no command session is
    ever started: the prompt of the wake flow is handed to the
    synthesizer directly, and it is the end of that prompt that starts
    the command recognizer. *)
Theorem without_synthesis_no_command r evs w effs :
  run evs (loaded r false) = Some (w, effs) →
  Forall not_command_start effs
  ∧ utterances (browser w) = []
  ∧ Forall (λ ev, ev ≠ EvUtteranceEnd) evs.
Proof.
  intros H.
  assert (no_synth (loaded r false)) as Hinv by (destruct r; repeat split).
  destruct (run_invariant no_synth not_command_start (λ _, True)
              (λ ev w w' effs _ Hw Hev, no_synth_step ev w w' effs Hw Hev)
              evs _ _ _ (Forall_true _ _ (λ _, I)) Hinv H)
    as [[_ Hu] He].
  split_and!; try done.
  revert H Hinv. generalize (loaded r false). clear.
  revert effs. induction evs as [|ev evs IH]; intros effs w0 H Hinv; [done |].
  simpl in H.
  destruct (handle ev w0) as [[w1 e1]|] eqn:E1; [| done].
  destruct (run evs w1) as [[w2 e2]|] eqn:E2; [| done]. simplify_eq.
  constructor.
  - intros ->. simpl in E1. destruct Hinv as [_ Hu]. by rewrite Hu in E1.
  - eapply IH; [done |]. by eapply no_synth_step.
Qed.

Lemma without_synthesis_no_command_witness :
  Forall not_command_start
    (effects [EvResult Wake 0 "hey to do"; EvMuteClick] (loaded true false))
  ∧ utterances
      (browser (after [EvResult Wake 0 "hey to do"; EvMuteClick]
                  (loaded true false)))
    = [].
Proof.
  destruct (without_synthesis_no_command true
              [EvResult Wake 0 "hey to do"; EvMuteClick]
              (after [EvResult Wake 0 "hey to do"; EvMuteClick]
                 (loaded true false))
              (effects [EvResult Wake 0 "hey to do"; EvMuteClick]
                 (loaded true false)))
    as (He & Hu & _); [vm_compute; reflexivity |].
  split; [exact He | exact Hu].
Defined.

(** ** The modal and the confirmation mode *)

Lemma closeConfirmDialog_hides w : safe dialog_shown any_effect closeConfirmDialog w.
Proof.
  intros _. unfold closeConfirmDialog, dialog_shown. destruct w as [v d b].
  js_eval; (split; [split; intros; congruence | by apply Forall_true]).
Qed.

Lemma openConfirmDialog_shows w message onConfirm onCancel voicePrompt :
  safe dialog_shown any_effect
    (openConfirmDialog message onConfirm onCancel voicePrompt) w.
Proof.
  intros _.
  destruct (openConfirmDialog_opens w message onConfirm onCancel voicePrompt)
    as [(Hd & _ & _ & Ho & _) _].
  split; [by split | by apply Forall_true].
Qed.

#[export] Hint Resolve closeConfirmDialog_hides openConfirmDialog_shows : safe.

Ltac dialog_shown_leaf :=
  try done; unfold dialog_shown; simpl; try done.

Lemma dialog_shown_step ev w w' effs :
  dialog_shown w → handle ev w = Some (w', effs) →
  dialog_shown w' ∧ Forall any_effect effs.
Proof.
  intros Hinv H.
  destruct ev; handler_cases H; try done;
    (eapply (safe_exec dialog_shown); [| done | done]);
    safe_run dialog_shown_leaf fail.
Qed.

(** X9. Whatever happens on the page once it is loaded, the
    confirmation modal is on screen exactly when [inConfirmDialog] is
    set. *)
Theorem modal_shown_iff_confirming r s evs w effs :
  run evs (loaded r s) = Some (w, effs) →
  inConfirmDialog (vars w) = true ↔ confirmOverlay (dom w) = Some true.
Proof.
  intros H.
  assert (dialog_shown (loaded r s)) as Hinv by (by destruct r, s).
  by destruct (run_invariant dialog_shown any_effect (λ _, True)
                 (λ ev w w' effs _ Hw Hev, dialog_shown_step ev w w' effs Hw Hev)
                 evs _ _ _ (Forall_true _ _ (λ _, I)) Hinv H).
Qed.

Lemma modal_shown_iff_confirming_witness :
  inConfirmDialog (vars (after [EvClearClick; EvUtteranceEnd] (loaded true true))) = true
  ↔ confirmOverlay (dom (after [EvClearClick; EvUtteranceEnd] (loaded true true)))
    = Some true.
Proof.
  apply (modal_shown_iff_confirming true true [EvClearClick; EvUtteranceEnd] _
           (effects [EvClearClick; EvUtteranceEnd] (loaded true true))).
  vm_compute. reflexivity.
Defined.

(** ** Requests that clear tasks *)

Ltac silent_leaf :=
  try done; unfold cancel_is_silent, not_clear; simpl; try tauto.

Ltac silent_absurd :=
  unfold cancel_is_silent; intros [? | ?]; simpl in *; congruence.

Lemma from_page_post path body :
  from_page (EvTaskPost path body) = true →
  path = "/toggle" ∨ path = "/delete" ∨ path = "/update".
Proof.
  simpl. rewrite !orb_true_iff, !String.eqb_eq. intuition congruence.
Qed.

(** An event that is not an acceptance makes no request that clears
    tasks. *)
Lemma silent_step ev w w' effs :
  cancel_is_silent w → from_page ev = true → handle ev w = Some (w', effs) →
  cancel_is_silent w' ∧ (confirms ev = false → Forall not_clear effs).
Proof.
  intros Hinv Hpage H.
  destruct (confirms ev) eqn:Hc.
  - cut (cancel_is_silent w' ∧ Forall any_effect effs); [by intros [? _] |].
    destruct ev; try done; handler_cases H; try done;
      (eapply (safe_exec cancel_is_silent); [| done | done]);
      safe_run silent_leaf silent_absurd.
  - cut (cancel_is_silent w' ∧ Forall not_clear effs); [by intros [? ?] |].
    destruct ev; try done.
    all: try (apply from_page_post in Hpage as [-> | [-> | ->]]).
    all: handler_cases H; try done.
    all: simpl in Hc; unfold accept_phrase in Hc.
    all: (eapply (safe_exec cancel_is_silent); [| done | done]);
      safe_run silent_leaf silent_absurd.
Qed.

(** X10. On the page as loaded, and whatever has happened since, a
    request to [/clear] or to [/clear-completed] is only ever made by a
    click on the Yes button of the modal or by a reply that the
    confirmation recognizer takes for an acceptance. *)
Theorem clear_only_on_confirmation r s evs w effs ev w' e path body :
  Forall (λ ev, from_page ev = true) evs →
  run evs (loaded r s) = Some (w, effs) →
  from_page ev = true → handle ev w = Some (w', e) →
  EFetch POST path body ∈ e →
  path = "/clear" ∨ path = "/clear-completed" →
  confirms ev = true.
Proof.
  intros Hevs Hrun Hev H Hin Hpath.
  assert (cancel_is_silent (loaded r s)) as Hinv by (destruct r, s; by left).
  destruct (run_invariant cancel_is_silent any_effect (λ ev, from_page ev = true))
    with (evs := evs) (w := loaded r s) (w' := w) (effs := effs) as [Hw _];
    [| done | done | done |].
  { intros ev0 w0 w1 e0 Hp Hw0 H0.
    destruct (silent_step ev0 w0 w1 e0 Hw0 Hp H0) as [? _].
    split; [done | by apply Forall_true]. }
  destruct (silent_step ev w w' e Hw Hev H) as [_ Hq].
  destruct (confirms ev); [done |].
  specialize (Hq eq_refl). rewrite Forall_forall in Hq.
  specialize (Hq _ Hin). unfold not_clear in Hq. simpl in Hq.
  destruct Hpath as [-> | ->]; done.
Qed.

Lemma clear_only_on_confirmation_witness :
  confirms (EvResult Confirm 0 " Yes ") = true.
Proof.
  eapply (clear_only_on_confirmation true true [EvClearClick; EvUtteranceEnd]
            _ _ (EvResult Confirm 0 " Yes ") _ _ "/clear" []).
  - repeat constructor.
  - vm_compute. reflexivity.
  - reflexivity.
  - vm_compute. reflexivity.
  - rewrite !elem_of_cons. tauto.
  - by left.
Defined.

(** ** The sort mode *)

Lemma refreshTasks_known r w : safe sort_known tasks_request (refreshTasks r) w.
Proof.
  intros Hw. unfold refreshTasks, sort_known in *. destruct w as [v d b].
  js_eval. split; [done |]. constructor; [| constructor]. right. by eexists.
Qed.

#[export] Hint Resolve refreshTasks_known : safe.

Ltac sort_leaf :=
  try done; unfold sort_known, tasks_request; simpl; try done; try (by left).

Lemma sort_known_step ev w w' effs :
  sort_known w → from_page ev = true → handle ev w = Some (w', effs) →
  sort_known w' ∧ Forall tasks_request effs.
Proof.
  intros Hinv Hpage H.
  destruct ev; handler_cases H; try done;
    (eapply (safe_exec sort_known); [| done | done]);
    safe_run sort_leaf fail.
Qed.

(** X11. On the page as loaded, and whatever has happened since, the
    sort mode is one of the four values of the sort menu, and every
    request for the task list goes to [/tasks] or to [/tasks?sort=] with
    one of these values. *)
Theorem sort_mode_of_the_menu r s evs w effs :
  Forall (λ ev, from_page ev = true) evs →
  run evs (loaded r s) = Some (w, effs) →
  sortMode (vars w) ∈ options.*1
  ∧ ∀ path body, EFetch GET path body ∈ effs →
      path = "/tasks" ∨ ∃ mode, mode ∈ options.*1 ∧ path = "/tasks?sort=" +:+ mode.
Proof.
  intros Hevs Hrun.
  assert (∀ m, sort_value m = true → m ∈ options.*1) as Hin.
  { intros m. unfold sort_value. simpl.
    rewrite !orb_true_iff, !String.eqb_eq, !elem_of_cons. intuition congruence. }
  assert (sort_known (loaded r s)) as Hinv by (by destruct r, s).
  destruct (run_invariant sort_known tasks_request (λ ev, from_page ev = true)
              (λ ev w w' effs Hp Hw Hev, sort_known_step ev w w' effs Hw Hp Hev)
              evs _ _ _ Hevs Hinv Hrun) as [Hw He].
  split; [by apply Hin |].
  intros path body Hp. rewrite Forall_forall in He. specialize (He _ Hp).
  destruct He as [-> | (m & Hm & ->)]; [by left |]. right. exists m. auto.
Qed.

Lemma sort_mode_of_the_menu_witness :
  sortMode (vars (after [EvResult Command 0 "please order by deadline"]
                    (after [EvResult Wake 0 "hey to do"; EvUtteranceEnd]
                       (loaded true true))))
  ∈ options.*1.
Proof.
  apply (sort_mode_of_the_menu true true
           [EvResult Wake 0 "hey to do"; EvUtteranceEnd;
            EvResult Command 0 "please order by deadline"] _
           (effects [EvResult Wake 0 "hey to do"; EvUtteranceEnd;
                     EvResult Command 0 "please order by deadline"]
              (loaded true true))).
  - repeat constructor.
  - vm_compute. reflexivity.
Defined.

(** ** The flag of the wake recognizer *)

(** The end of a handler that has been evaluated: the flag is down, or
    it is as it was, or the recognizer has just been started. *)
Ltac wake_flag_finish Hf :=
  split; [| by apply Forall_true];
  unfold wake_flag; simpl; split; [done |];
  intros; simplify_eq/=;
  repeat match goal with
         | H : _ && _ = true |- _ => apply andb_prop in H as [? ?]
         | H : negb _ = true |- _ => apply negb_true_iff in H
         | H : negb _ = false |- _ => apply negb_false_iff in H
         end;
  repeat match goal with
         | H : ?x = Some _ |- context [?x] => rewrite H
         end;
  first
    [ done
    | congruence
    | by (match goal with
          | H : wakeRunning _ = true |- _ => destruct (Hf H) as [? (? & ? & ?)]
          end; first [congruence | simplify_eq; eauto])
    | by (split; [done |]; eexists; split; [done |];
          first [ apply list_lookup_insert_eq; by eapply lookup_lt_Some
                | apply lookup_snoc ]) ].

Lemma startWakeRecognition_flag r w :
  safe (wake_flag r) any_effect startWakeRecognition w.
Proof.
  intros [Hr Hf]. unfold startWakeRecognition.
  destruct w as [v d [sr sy ws cs fs us ts rs]]. simpl in *.
  js_eval; wake_flag_finish Hf.
Qed.

Lemma stopWakeRecognition_flag r w :
  safe (wake_flag r) any_effect stopWakeRecognition w.
Proof.
  intros [Hr Hf]. unfold stopWakeRecognition.
  destruct w as [v d [sr sy ws cs fs us ts rs]]. simpl in *.
  js_eval; wake_flag_finish Hf.
Qed.

#[export] Hint Resolve startWakeRecognition_flag stopWakeRecognition_flag : safe.

Lemma muteBtn_click_flag r w : safe (wake_flag r) any_effect muteBtn_click w.
Proof.
  intros [Hr Hf]. unfold muteBtn_click, initRecognizers, startWakeRecognition,
    stopWakeRecognition, stopCommandRecognition.
  destruct w as [v d [sr sy ws cs fs us ts rs]]. simpl in *.
  js_eval_new; wake_flag_finish Hf.
Qed.

Lemma wake_end_flag r w i :
  safe (wake_flag r) any_effect
    (write (on_browser (set_sessions Wake
              (<[i:=Inactive]> (sessions Wake (browser w))))) ;;
     wakeRecognition_onend) w.
Proof.
  intros [Hr Hf]. unfold wakeRecognition_onend.
  destruct w as [v d [sr sy ws cs fs us ts rs]]. simpl in *.
  js_eval; wake_flag_finish Hf.
Qed.

#[export] Hint Resolve muteBtn_click_flag wake_end_flag : safe.

Ltac wake_flag_leaf :=
  try done; unfold wake_flag; simpl; try done.

Lemma wake_flag_step r ev w w' effs :
  wake_flag r w → handle ev w = Some (w', effs) →
  wake_flag r w' ∧ Forall any_effect effs.
Proof.
  intros Hinv H.
  destruct ev; handler_cases H; try done;
    (eapply (safe_exec (wake_flag r)); [| done | done]);
    safe_run wake_flag_leaf fail.
Qed.

Lemma wake_flag_run r s evs w effs :
  run evs (loaded r s) = Some (w, effs) → wake_flag r w.
Proof.
  intros H.
  assert (wake_flag r (loaded r s)) as Hinv.
  { destruct r, s; (split; [done |]); intros Hrun; vm_compute in Hrun;
      try discriminate; (split; [done |]); by exists 0. }
  by destruct (run_invariant (wake_flag r) any_effect (λ _, True)
                 (λ ev w w' effs _ Hw Hev, wake_flag_step r ev w w' effs Hw Hev)
                 evs _ _ _ (Forall_true _ _ (λ _, I)) Hinv H).
Qed.

(** X12. On the page as loaded, and whatever has happened since,
    [wakeRunning] is set only while [listening] is set and the current
    wake recognizer is capturing. *)
Theorem wakeRunning_means_capturing r s evs w effs :
  run evs (loaded r s) = Some (w, effs) →
  wakeRunning (vars w) = true →
  listening (vars w) = true
  ∧ ∃ i, wakeRecognition (vars w) = Some i
         ∧ wake_sessions (browser w) !! i = Some Capturing.
Proof. intros H. by destruct (wake_flag_run r s evs w effs H). Qed.

Lemma wakeRunning_means_capturing_witness :
  listening (vars (after [EvMuteClick; EvEnd Wake 0; EvMuteClick] (loaded true true)))
  = true
  ∧ ∃ i, wakeRecognition
           (vars (after [EvMuteClick; EvEnd Wake 0; EvMuteClick] (loaded true true)))
         = Some i
         ∧ wake_sessions
             (browser (after [EvMuteClick; EvEnd Wake 0; EvMuteClick] (loaded true true)))
           !! i = Some Capturing.
Proof.
  apply (wakeRunning_means_capturing true true
           [EvMuteClick; EvEnd Wake 0; EvMuteClick] _
           (effects [EvMuteClick; EvEnd Wake 0; EvMuteClick] (loaded true true))).
  - vm_compute. reflexivity.
  - vm_compute. reflexivity.
Defined.

(** X13. Whenever the page is muted, a click on the mute button creates
    new recognizers and starts the wake one: the page listens again. *)
Theorem unmute_starts_wake_session s evs w effs :
  run evs (loaded true s) = Some (w, effs) →
  listening (vars w) = false →
  ∃ w' i,
    handle EvMuteClick w
    = Some (w', [EStart Wake i; EStatus "Say 'Hey To Do' to start." "green"])
    ∧ i = length (wake_sessions (browser w))
    ∧ listening (vars w') = true
    ∧ wakeRunning (vars w') = true
    ∧ wakeRecognition (vars w') = Some i
    ∧ wake_sessions (browser w') = wake_sessions (browser w) ++ [Capturing]
    ∧ muteLabel (dom w') = "Stop Listening".
Proof.
  intros H Hl. destruct (wake_flag_run true s evs w effs H) as [Hr Hf].
  assert (wakeRunning (vars w) = false) as Hrun.
  { destruct (wakeRunning (vars w)); [| done]. destruct Hf; congruence. }
  clear H Hf. unfold handle, muteBtn_click, initRecognizers, startWakeRecognition.
  destruct w as [v d [sr sy ws cs fs us ts rs]]. simpl in *. subst sr.
  js_unfold. simpl. rewrite Hl. simpl. rewrite Hrun. simpl.
  rewrite lookup_snoc. simpl. rewrite insert_snoc.
  eexists _, _. split; [reflexivity |]. done.
Qed.

Lemma unmute_starts_wake_session_witness :
  ∃ w' i,
    handle EvMuteClick (after [EvMuteClick] (loaded true true))
    = Some (w', [EStart Wake i; EStatus "Say 'Hey To Do' to start." "green"])
    ∧ wake_sessions (browser w') = [Stopping; Capturing].
Proof.
  destruct (unmute_starts_wake_session true [EvMuteClick]
              (after [EvMuteClick] (loaded true true))
              (effects [EvMuteClick] (loaded true true)))
    as (w' & i & E & _ & _ & _ & _ & Hws & _);
    [vm_compute; reflexivity | reflexivity |].
  exists w', i. split; [exact E | exact Hws].
Defined.

(** ** Back to the wake word after a command *)

Lemma count_capturing_leave l i s :
  l !! i = Some Capturing → is_capturing s = false →
  count_capturing l = S (count_capturing (<[i:=s]> l)).
Proof.
  unfold count_capturing. intros H Hs. revert i H.
  induction l as [|x l IH]; intros [|i] H; try done.
  - injection H as ->. cbn [insert list_insert].
    rewrite filter_cons_True by done. rewrite filter_cons_False; [done |].
    by rewrite Hs.
  - cbn [insert list_insert]. change (l !! i = Some Capturing) in H.
    destruct (decide (is_capturing x = true)).
    + rewrite !filter_cons_True by done. simpl. f_equal. by apply IH.
    + rewrite !filter_cons_False by done. by apply IH.
Qed.

Lemma count_capturing_enter l i :
  Forall (λ s, s = Inactive) l → i < length l →
  count_capturing (<[i:=Capturing]> l) = 1.
Proof.
  unfold count_capturing. intros Hl. revert i.
  induction Hl as [|x l -> Hl IH]; intros [|i] Hi; simpl in Hi; try lia.
  - cbn [insert list_insert]. rewrite filter_cons_True by done. simpl.
    f_equal. by apply (count_capturing_inactive l).
  - cbn [insert list_insert]. rewrite filter_cons_False by done.
    apply IH. lia.
Qed.

(** X14. When the command session ends while the page listens and no
    dialog is open, the page leaves command mode with no session
    capturing and arms the 500 ms timer; when the timer fires, the wake
    recognizer captures again, and it alone. *)
Theorem command_end_resumes_wake w i j :
  awaiting_command i w →
  wakeRunning (vars w) = false →
  wakeRecognition (vars w) = Some j →
  j < length (wake_sessions (browser w)) →
  ∃ w1 w2,
    handle (EvEnd Command i) w
    = Some (w1, [EStatus "Say 'Hey To Do' to start again." "green"; ETimeout 500])
    ∧ inCommandMode (vars w1) = false
    ∧ capturing w1 = 0
    ∧ handle EvTimeout w1 = Some (w2, [EStart Wake j])
    ∧ wakeRunning (vars w2) = true
    ∧ wake_sessions (browser w2) !! j = Some Capturing
    ∧ capturing w2 = 1.
Proof.
  intros (Hl & Hc & Hd & Hr & Hi & Hcap & Hws) Hrun Hj Hlt.
  unfold capturing in Hcap.
  rewrite (count_capturing_inactive _ Hws),
    (count_capturing_leave _ i Inactive Hi eq_refl) in Hcap.
  assert (count_capturing (<[i:=Inactive]> (command_sessions (browser w))) = 0
          ∧ count_capturing (confirm_sessions (browser w)) = 0) as [Hc0 Hf0] by lia.
  assert (wake_sessions (browser w) !! j = Some Inactive) as Hwj.
  { destruct (lookup_lt_is_Some_2 _ _ Hlt) as [x Hx].
    by rewrite (Forall_lookup_1 _ _ _ _ Hws Hx) in Hx. }
  unfold handle, onend, commandRecognition_onend, startWakeRecognition, capturing.
  destruct w as [v d [sr sy ws cs fs us ts rs]]. simpl in *.
  rewrite Hi. simpl. js_unfold. simpl. rewrite Hl, Hd. simpl.
  eexists _, _. split; [reflexivity |]. simpl.
  rewrite ?Hrun, ?Hl, ?Hj. simpl. rewrite Hwj. simpl.
  rewrite (count_capturing_inactive _ Hws), Hc0, Hf0.
  split_and!; try done.
  - apply list_lookup_insert_eq. done.
  - cbn [browser wake_sessions command_sessions confirm_sessions].
    by rewrite (count_capturing_enter _ _ Hws Hlt), Hc0, Hf0.
Qed.

Lemma command_end_resumes_wake_witness :
  ∃ w1 w2,
    handle (EvEnd Command 0)
      (after [EvResult Wake 0 "hey to do"; EvEnd Wake 0; EvUtteranceEnd]
         (loaded true true))
    = Some (w1, [EStatus "Say 'Hey To Do' to start again." "green"; ETimeout 500])
    ∧ handle EvTimeout w1 = Some (w2, [EStart Wake 0])
    ∧ capturing w2 = 1.
Proof.
  destruct (command_end_resumes_wake
              (after [EvResult Wake 0 "hey to do"; EvEnd Wake 0; EvUtteranceEnd]
                 (loaded true true)) 0 0)
    as (w1 & w2 & E1 & _ & _ & E2 & _ & _ & Hcap).
  - unfold awaiting_command. split_and!; try reflexivity.
    vm_compute. repeat constructor.
  - reflexivity.
  - reflexivity.
  - vm_compute. lia.
  - exists w1, w2. split_and!; [exact E1 | exact E2 | exact Hcap].
Defined.

(** ** The listing helpers *)





(** ** A request and the refresh that follows it *)

Lemma length_snoc {A} (l : list A) x : length (l ++ [x]) = S (length l).
Proof. rewrite length_app. simpl. lia. Qed.

(** X17. A request from a task row, its reply and the reply to the
    refresh that follows: the list on the page is then the list that
    the server has sent for the sort mode of the page, the variables are
    as they were and no request is pending. *)
Theorem post_then_refresh w path body data tasks :
  let n := length (requests (browser w)) in
  let said :=
    match truthy_field (json_message data) with
    | Some m => spoken w m
    | None => []
    end in
  ∃ w1,
    handle (EvTaskPost path body) w = Some (w1, [EFetch POST path body])
    ∧ ∃ w2,
        handle (EvReply n (Response true (Some data))) w1
        = Some (w2, said ++ [EFetch GET ("/tasks?sort=" +:+ sortMode (vars w)) []])
        ∧ ∃ w3,
            handle (EvReply (S n) (Response true (Some (JTasks tasks)))) w2
            = Some (w3, [])
            ∧ taskList (dom w3) = tasks
            ∧ vars w3 = vars w
            ∧ requests (browser w3) = requests (browser w) ++ [None; None].
Proof.
  intros n said. subst n said.
  destruct w as [v d [sr sy ws cs fs us ts rs]].
  unfold handle, sendCommandJson, spoken. js_unfold. simpl.
  eexists. split; [reflexivity |]. simpl.
  rewrite lookup_snoc, insert_snoc. simpl.
  unfold sendCommandJson_reply, await_json, refreshTasks, speak.
  js_unfold. simpl.
  destruct (truthy_field (json_message data)) as [m|]; [destruct sy |]; simpl.
  all: eexists; (split; [reflexivity |]); simpl.
  all: rewrite <- (length_snoc rs None), lookup_snoc, insert_snoc; simpl.
  all: eexists; (split; [reflexivity |]); simpl.
  all: split_and!; try done; by rewrite <- (assoc_L (++)).
Qed.

(** ** The Edit Task dialog *)






Lemma priority_values_inv v :
  v ∈ priority_values → v = "1" ∨ v = "2" ∨ v = "3".
Proof.
  change priority_values with ["1"; "2"; "3"].
  rewrite !elem_of_cons, elem_of_nil. tauto.
Qed.

(** What Save sends from a dialog whose priority menu is in order. *)
Lemma handleEditSave_well_formed e u f :
  editOverlay e = Some f →
  editPrioritySelect f = "" ∨ editPrioritySelect f ∈ priority_values →
  (handleEditSave e).2 = SaveAwait u → well_formed u.
Proof.
  intros Hf Hsel. unfold handleEditSave. rewrite Hf.
  destruct (currentEditTaskId e) as [[|id]|]; try done.
  destruct (Js.truthy (Js.trim (editNameInput f))) eqn:Hn; [| done].
  cbn [negb snd]. intros [= <-]. unfold well_formed. cbn.
  split_and!; try done.
  - apply trim_idemp.
  - by destruct Hsel as [-> | [-> | [-> | ->]]%priority_values_inv].
  - by destruct Hsel as [-> | [-> | [-> | ->]]%priority_values_inv].
  - by destruct (Js.truthy (Js.trim (editCategoryInput f))) eqn:Hc.
  - destruct (Js.truthy (Js.trim (editCategoryInput f))) eqn:Hc; [| done].
    apply trim_idemp.
  - by destruct (editDueInput f).
Qed.

Lemma select_value_ok values v :
  Html.select_value values v = "" ∨ Html.select_value values v ∈ values.
Proof.
  unfold Html.select_value.
  destruct (existsb (String.eqb v) values) eqn:E; [| by left]. right.
  apply existsb_exists in E as (x & Hx & ->%String.eqb_eq).
  by apply list_elem_of_In.
Qed.

Lemma openEditDialog_select_ok date_field t e f :
  editOverlay (dialog_of (openEditDialog date_field t e)) = Some f →
  editPrioritySelect f = "" ∨ editPrioritySelect f ∈ priority_values.
Proof.
  unfold openEditDialog, initEditDialog.
  destruct e as [[f0|] id0]; cbn [editOverlay];
    destruct (truthy_field (t_due_date t)) as [due|];
    try destruct (date_field due); cbn; intros [= <-]; apply select_value_ok.
Qed.

Lemma select_ok_step date_field ev s s' effs :
  select_ok s → edit_handle date_field ev s = Some (s', effs) → select_ok s'.
Proof.
  unfold select_ok. intros Hs H f' Hf'.
  destruct ev; simpl in H.
  - simplify_eq/=. by eapply openEditDialog_select_ok.
  - unfold with_fields in H. destruct s as [[[f|] id] n]; simplify_eq/=.
    case_match; simplify_eq/=. by apply Hs.
  - destruct (priority_values !! i) as [v|] eqn:Hv; simplify_eq/=.
    unfold with_fields in H. destruct s as [[[f|] id] n]; simplify_eq/=.
    case_match; simplify_eq/=. right. by eapply list_elem_of_lookup_2.
  - unfold with_fields in H. destruct s as [[[f|] id] n]; simplify_eq/=.
    case_match; simplify_eq/=. by apply Hs.
  - unfold with_fields in H. destruct s as [[[f|] id] n]; simplify_eq/=.
    case_match; simplify_eq/=. by apply Hs.
  - unfold displayed, handleEditSave, handleEditCancel in H.
    destruct s as [[[f|] [[|id]|]] n]; simpl in *;
      repeat case_match; simplify_eq/=; eauto.
  - unfold displayed, handleEditCancel in H.
    destruct s as [[[f|] id] n]; simpl in *;
      repeat case_match; simplify_eq/=; eauto.
  - unfold handleEditSave_resume, handleEditCancel in H.
    destruct s as [[[f|] id] [|n]], result; simpl in *; simplify_eq/=; eauto.
Qed.

(** X19. Whatever is done in the Edit Task dialog (pencil clicks,
    typing, choosing from the priority menu, Save, Cancel, replies
    of earlier saves, in any order), every update it posts names a
    task, has a non-blank trimmed name, a priority from 1 to 3, a
    non-blank trimmed category, and a due date that is absent or not
    empty. *)
Theorem updates_are_well_formed date_field evs s effs u :
  edit_run date_field evs no_dialog = Some (s, effs) →
  EUpdate u ∈ effs → well_formed u.
Proof.
  assert (select_ok no_dialog) as Hinv by (by intros f).
  revert Hinv. generalize no_dialog. revert effs.
  induction evs as [|ev evs IH]; intros effs s0 Hinv H Hu.
  - simpl in H. simplify_eq. by apply elem_of_nil in Hu.
  - simpl in H.
    destruct (edit_handle date_field ev s0) as [[s1 e1]|] eqn:E1; [| done].
    destruct (edit_run date_field evs s1) as [[s2 e2]|] eqn:E2; [| done].
    simplify_eq. apply elem_of_app in Hu as [Hu | Hu].
    + clear IH E2. destruct ev; simpl in E1.
      1-5: try (unfold with_fields in E1; simpl in E1);
        try destruct (priority_values !! i); simpl in E1;
        try destruct (editOverlay (dialog s0)); simpl in E1;
        repeat case_match; simplify_eq/=; by apply elem_of_nil in Hu.
      * destruct (displayed (dialog s0)) eqn:Hd; [| done].
        destruct (handleEditSave (dialog s0)) as [e' [| | u' |]] eqn:Es;
          simplify_eq; try (by apply elem_of_nil in Hu);
          apply list_elem_of_singleton in Hu as [= ->].
        unfold displayed in Hd.
        destruct (editOverlay (dialog s0)) as [f|] eqn:Hf; [| done].
        eapply handleEditSave_well_formed; [done | by apply Hinv |].
        by rewrite Es.
      * destruct (displayed (dialog s0)); simplify_eq.
        by apply elem_of_nil in Hu.
      * destruct (awaited s0); simplify_eq. by apply elem_of_nil in Hu.
    + eapply IH; [| done | done]. by eapply select_ok_step.
Qed.

Lemma updates_are_well_formed_witness :
  edit_run Some
    [EdPencil (Task 7 "Buy milk" false 9 "" None); EdName "  Buy bread ";
     EdPriority 2; EdCategory " "; EdSave] no_dialog
  = Some (MkEditState
            (MkEditDialog
               (Some (MkEditFields true "  Buy bread " "3" " " "")) (Some 7)) 1,
          [EUpdate (MkUpdate 7 "Buy bread" 3 "general" None)])
  ∧ well_formed (MkUpdate 7 "Buy bread" 3 "general" None).
Proof.
  split; [vm_compute; reflexivity |].
  apply (updates_are_well_formed Some
           [EdPencil (Task 7 "Buy milk" false 9 "" None); EdName "  Buy bread ";
            EdPriority 2; EdCategory " "; EdSave]
           (MkEditState
              (MkEditDialog
                 (Some (MkEditFields true "  Buy bread " "3" " " "")) (Some 7)) 1)
           [EUpdate (MkUpdate 7 "Buy bread" 3 "general" None)]).
  - vm_compute; reflexivity.
  - apply list_elem_of_singleton. reflexivity.
Defined.

(** ** Long press on a task row *)

Section long_press.

Import LongPress.

Variable taskId : nat.

Lemma held_filter (i : nat) (l : list nat) : (∀ j, j ∈ l → i = j) → filter (λ j, j ≠ i) l = [].
Proof.
  induction l as [|j l IH]; [done |]. intros H.
  rewrite filter_cons_False.
  - apply IH. intros k Hk. apply H. by right.
  - intros Hj. apply Hj. symmetry. apply H. by left.
Qed.

Lemma held_run evs : ∀ down s s' ds,
  held down s → one_pointer down evs = true →
  run taskId evs s = Some (s', ds) →
  Forall (λ d, d = taskId) ds
  ∧ ∃ down', held down' s'
      ∧ (∀ evs0, evs = evs0 ++ [Release] → down' = false).
Proof.
  induction evs as [|ev evs IH]; intros down s s' ds Hs Hp H.
  - simpl in H. simplify_eq. split; [done |]. exists down.
    split; [done |]. by intros [|??].
  - simpl in H.
    destruct (handle taskId ev s) as [[s1 d]|] eqn:E1; [| done].
    destruct (run taskId evs s1) as [[s2 ds2]|] eqn:E2; [| done].
    simplify_eq.
    assert (∃ down1, held down1 s1 ∧ one_pointer down1 evs = true
                     ∧ (ev = Release → down1 = false)
                     ∧ Forall (λ d, d = taskId) (option_list d))
      as (down1 & Hs1 & Hp1 & Hr & Hd).
    { destruct Hs as [Ha Hu]. destruct ev; simpl in E1, Hp.
      - apply andb_prop in Hp as [Hdown Hp]. simplify_eq.
        exists true. split_and!; try done. split; [| done].
        simpl. destruct down; [done |]. rewrite (Hu eq_refl).
        by intros i ->%list_elem_of_singleton.
      - simplify_eq. exists false. split_and!; try done.
        unfold cancel. destruct (pressTimer s) as [i|] eqn:Ei; simpl.
        + split; simpl; [| intros _].
          * rewrite held_filter; [by intros ? ?%elem_of_nil |].
            intros j Hj. apply Ha in Hj. congruence.
          * apply held_filter. intros j Hj. apply Ha in Hj. congruence.
        + assert (armed s = []) as Hnil.
          { destruct (armed s) as [|j l]; [done |].
            by specialize (Ha j ltac:(by left)). }
          split; [| done]. rewrite Hnil. by intros ? ?%elem_of_nil.
      - case_bool_decide as Hi; [| done]. unfold elapsed in E1. simplify_eq.
        exists down. split_and!; try done.
        + split; simpl.
          * intros j [_ Hj]%list_elem_of_filter. by apply Ha.
          * intros Hdown. rewrite (Hu Hdown) in Hi.
            by apply elem_of_nil in Hi.
        + destruct answer; simpl; by repeat constructor.
      - destruct (fading s); [done |]. unfold fade in E1. simplify_eq.
        exists down. by split_and!. }
    destruct (IH _ _ _ _ Hs1 Hp1 E2) as (Hds & down' & Hs' & Hlast).
    split; [by apply Forall_app |].
    destruct evs as [|ev' evs'].
    + simpl in E2. simplify_eq. exists down1. split; [done |].
      intros [|? [|??]] Heq; simplify_eq/=. by apply Hr.
    + exists down'. split; [done |].
      intros [|e0 evs0] Heq; simplify_eq/=. by eapply Hlast.
Qed.

(** X20. With one pointer (no press while it is down), once the row
    has been released no 650 ms timer is left: [pressTimer] is null and
    no long-press callback can run any more, so a press that is released
    before its timer fires never asks to delete.  Every deletion that
    the row has asked for is of its own task. *)
Theorem release_disarms evs s ds :
  one_pointer false (evs ++ [Release]) = true →
  run taskId (evs ++ [Release]) attached = Some (s, ds) →
  pressTimer s = None
  ∧ armed s = []
  ∧ (∀ i answer, handle taskId (Elapsed i answer) s = None)
  ∧ Forall (λ d, d = taskId) ds.
Proof.
  intros Hp H.
  assert (held false attached) as Hinv by (by split; [intros ? ?%elem_of_nil |]).
  destruct (held_run _ _ _ _ _ Hinv Hp H) as (Hds & down' & [Ha Hu] & Hlast).
  specialize (Hlast evs eq_refl). subst down'.
  assert (armed s = []) as Hempty by by apply Hu.
  split_and!; try done.
  - revert H. clear. generalize attached. revert ds.
    induction evs as [|ev evs IH]; intros ds s0 H; simpl in H.
    + unfold cancel in H. destruct (pressTimer s0) eqn:E; by simplify_eq/=.
    + destruct (handle taskId ev s0) as [[s1 d]|]; [| done].
      destruct (run taskId (evs ++ [Release]) s1) as [[s2 ds2]|] eqn:E2;
        [| done].
      simplify_eq. by eapply IH.
  - intros i answer. simpl. rewrite Hempty.
    by rewrite bool_decide_eq_false_2 by apply not_elem_of_nil.
Qed.

End long_press.

Lemma release_disarms_witness :
  LongPress.run 7
    ([LongPress.Press; LongPress.Release; LongPress.Press;
      LongPress.Elapsed 1 true] ++ [LongPress.Release]) LongPress.attached
  = Some (LongPress.MkState None true true [] 2 1, [7])
  ∧ LongPress.handle 7 (LongPress.Elapsed 1 false)
      (LongPress.MkState None true true [] 2 1) = None.
Proof.
  split; [vm_compute; reflexivity |].
  destruct (release_disarms 7
              [LongPress.Press; LongPress.Release; LongPress.Press;
               LongPress.Elapsed 1 true]
              (LongPress.MkState None true true [] 2 1) [7])
    as (_ & _ & H & _); [reflexivity | vm_compute; reflexivity |].
  exact (H 1 false).
Defined.

(** ** The commands of the earlier copy *)

(** X21. The earlier copy handles a spoken command exactly as the
    current script does (same state after, same requests, same speech)
    whenever the command is one to add, mark, delete, list or sort, or
    an add with no name.  The commands that clear tasks and those that
    are not understood are excepted. *)
Theorem script3_same_commands s w :
  same_in_script3 (Spec.interpret (Js.trim s)) = true →
  Script3Voice.processCommand (Some s) w = processCommand (Some s) w.
Proof.
  destruct (Js.truthy (Js.trim s)) eqn:Ht.
  - unfold Script3Voice.processCommand, processCommand.
    rewrite (trim_truthy s Ht), Ht. cbn [negb]. cbv iota zeta.
    unfold Spec.interpret, Spec.patterns, Spec.add_task,
      Spec.named, Spec.mark_done, Spec.delete_by_name, Spec.clear_completed,
      Spec.clear_all, Spec.list_tasks, Spec.set_sort_mode, Spec.phrase.
    cbn [Spec.first_match].
    repeat match goal with
           | |- context [any_of ?l ?x] => generalize (any_of l x); intro
           | |- context [Js.startsWith ?p ?x] =>
               generalize (Js.startsWith p x); intro
           | |- context [Js.truthy ?x] => generalize (Js.truthy x); intro
           | |- context [Js.match_mark ?x] => generalize (Js.match_mark x); intro
           | |- context [Js.match_delete ?x] =>
               generalize (Js.match_delete x); intro
           end.
    repeat lazymatch goal with
           | |- _ → (if negb ?b then _ else _) _ = _ =>
               destruct b; cbn [negb default mbind option_bind same_in_script3];
               try (intros _; reflexivity); try discriminate
           | |- _ → (if ?b then _ else _) _ = _ =>
               destruct b; cbn [negb default mbind option_bind same_in_script3];
               try (intros _; reflexivity); try discriminate
           | |- _ → match ?o with Some _ => _ | None => _ end _ = _ =>
               destruct o; cbn [negb default mbind option_bind same_in_script3];
               try (intros _; reflexivity); try discriminate
           end.
  - intros _. unfold Script3Voice.processCommand, processCommand.
    rewrite Ht. by destruct (Js.truthy s).
Qed.

Lemma script3_same_commands_witness :
  Script3Voice.processCommand (Some "Sort by Priority") (loaded true true)
  = processCommand (Some "Sort by Priority") (loaded true true).
Proof.
  apply (script3_same_commands "Sort by Priority" (loaded true true)).
  vm_compute. reflexivity.
Defined.

(** ** The model on examples *)

Example trim_example : Js.trim "  Add  Milk  " = "Add  Milk".
Proof. reflexivity. Qed.

Example mark_as_done : Js.match_mark "mark buy milk as done" = Some "buy milk".
Proof. reflexivity. Qed.

Example mark_done : Js.match_mark "mark buy milk done" = Some "buy milk".
Proof. reflexivity. Qed.

(** The lazy group can be a single blank: [\s+] gives one back. *)
Example mark_blank_name : Js.match_mark "mark   done" = Some " ".
Proof. reflexivity. Qed.

Example mark_without_name : Js.match_mark "mark done" = None.
Proof. reflexivity. Qed.

Example mark_shortest_name :
  Js.match_mark "mark as done as done" = Some "as done".
Proof. reflexivity. Qed.

(** [remove all] as a whole command is a deletion by name. *)
Example remove_all_is_delete : Spec.interpret "remove all" = DeleteByName "all".
Proof. reflexivity. Qed.

Example of_nat_example : Js.of_nat 0 = "0" ∧ Js.of_nat 12 = "12".
Proof. split; reflexivity. Qed.

Example collapse_example : Js.collapse_spaces "a  b   c" = "a b c".
Proof. reflexivity. Qed.

Example strip_example : Js.strip_keyword "add" "Add   buy" = "buy".
Proof. reflexivity. Qed.

(** The match is on substrings, across words. *)
Example wake_across_words : wakeWordHeard "they took it" = true.
Proof. reflexivity. Qed.

Example loaded_listens :
  wake_sessions (browser (loaded true true)) = [Capturing]
  ∧ capturing (loaded true true) = 1.
Proof. split; reflexivity. Qed.

Example scenario_add :
  exec (processCommand (Some "add buy milk")) (loaded true true)
  = (on_browser (set_requests
       [Some (KRefreshTasks ThenNothing); Some KSendCommandJson])
       (loaded true true),
     [EFetch POST "/add" [("task", "buy milk")]]).
Proof. reflexivity. Qed.

Example scenario_mark :
  (exec (processCommand (Some "mark buy milk as done")) (loaded true true)).2
  = [EFetch POST "/mark-by-name" [("name", "buy milk")]].
Proof. reflexivity. Qed.

Example scenario_list_empty :
  (exec (listAllTasks_reply (Response true (Some (JTasks [])))) (loaded true true)).2
  = [ECancel; ESpeak "You have no tasks."; EStatus "No tasks found." "orange"].
Proof. reflexivity. Qed.
